(** * Cross-chain swap engine: descriptor, member binding, transaction, runtime

  A shallow embedding of
  - [src/cross-chain/xbridgetransactiondescr.h] (struct XBridgeTransactionDescr),
  - [src/cross-chain/ctransaction.h] (COutPoint, CTxIn, CTxOut,
    CBTCTransaction and, after the separator, XBridgeTransactionMember),
  - the XBridge class declaration (xbridge.h),
  together with the properties the specification states about them.

  Conventions.
  - C++ objects that are passed by reference live in a store indexed by
    addresses, so that [this == &d] is a comparison of addresses.
  - [boost::posix_time::second_clock::universal_time()] and [time(0)] read
    a clock that is part of the world: each read consumes one reading.
  - Fixed-width integers are [Z] with the wrap-around written out. *)

From Stdlib Require Import ZArith Lia List Bool String Permutation.
From stdpp Require Import base gmap list strings.

Local Open Scope Z_scope.

(** ** Library types the headers rely on *)

(** [uint256] (util/uint256.h): a 256-bit unsigned number. *)
Definition uint256 : Type := Z.

(** [boost::posix_time::ptime]: a point in time, held as a tick count;
  ptime's [<] and [>] compare the counts. *)
Definition ptime : Type := Z.

(** [std::vector<unsigned char>] *)
Definition bytes : Type := list Byte.byte.

(** [XBridgePacketPtr] (xbridgepacket.h): a shared pointer to a packet;
  [None] is the null pointer, [Some a] points to the packet at [a]. *)
Definition XBridgePacketPtr : Type := option positive.

(** ** struct XBridgeTransactionDescr *)

Module XBridgeTransactionDescr.

(** The anonymous enum of constants. *)
Definition MIN_TX_FEE : Z := 100.
Definition COIN : Z := 1000000.

(** [enum State]: [trNew = 0], each further enumerator one more than the
    one before it. *)
Inductive State : Type :=
| trNew
| trPending
| trAccepting
| trHold
| trCreated
| trSigned
| trCommited
| trFinished
| trRollback
| trDropped
| trCancelled
| trInvalid
| trExpired.

Record t : Type := mk {
  id           : uint256;
  hubAddress   : bytes;
  myAddress    : bytes;
  from         : bytes;
  fromCurrency : string;
  fromAmount   : Z;
  to           : bytes;
  toCurrency   : string;
  toAmount     : Z;
  state        : State;
  created      : ptime;
  txtime       : ptime;
  payTxId      : uint256;
  payTx        : string;
  revTx        : string;
  packet       : XBridgePacketPtr
}.

(** The enumerators' integer values. *)
Definition State_value (s : State) : Z :=
  match s with
  | trNew => 0
  | trPending => 1
  | trAccepting => 2
  | trHold => 3
  | trCreated => 4
  | trSigned => 5
  | trCommited => 6
  | trFinished => 7
  | trRollback => 8
  | trDropped => 9
  | trCancelled => 10
  | trInvalid => 11
  | trExpired => 12
  end.

(** The enumerators in their order of declaration. *)
Definition State_enumerators : list State :=
  [trNew; trPending; trAccepting; trHold; trCreated; trSigned; trCommited;
   trFinished; trRollback; trDropped; trCancelled; trInvalid; trExpired].

(** *** The world: descriptor objects and the clock *)

(** Addresses of descriptor objects. *)
Definition addr : Type := positive.

(** [objs] holds the live descriptors; [clock] is the sequence of values
    the wall clock will return and [reads] the number of reads so far. *)
Record World : Type := mkWorld {
  objs  : gmap addr t;
  clock : nat -> ptime;
  reads : nat
}.

(** State passing with failure; [None] is an access to an address that
    holds no descriptor, which the C++ program cannot express through a
    reference. *)
Definition M (A : Type) : Type := World -> option (A * World).

#[export] Instance M_ret : MRet M := fun A a w => Some (a, w).

#[export] Instance M_bind : MBind M := fun A B k m w =>
  match m w with
  | Some (a, w') => k a w'
  | None => None
  end.

(** [boost::posix_time::second_clock::universal_time()] *)
Definition universal_time : M ptime :=
  fun w => Some (clock w (reads w),
                 mkWorld (objs w) (clock w) (Datatypes.S (reads w))).

(** Reading and writing the object behind a reference. *)
Definition load (p : addr) : M t :=
  fun w => match objs w !! p with
           | Some d => Some (d, w)
           | None => None
           end.

Definition store (p : addr) (d : t) : M unit :=
  fun w => match objs w !! p with
           | Some _ => Some (tt, mkWorld (<[p := d]> (objs w)) (clock w) (reads w))
           | None => None
           end.

(** Placing a newly constructed object in storage at [p]. *)
Definition emplace (p : addr) (d : t) : M unit :=
  fun w => Some (tt, mkWorld (<[p := d]> (objs w)) (clock w) (reads w)).

(** *** Comparison *)

(** [bool operator < (const XBridgeTransactionDescr & d) const] *)
Definition lt (self d : t) : bool := created self <? created d.

(** [bool operator > (const XBridgeTransactionDescr & d) const] *)
Definition gt (self d : t) : bool := created self >? created d.

(** *** Copying *)

(** The assignments of [copyFrom], with [now] the clock reading it
    takes.  Every field of [d] is read once, for the assignment to the
    same field of [*this], so the result is the same whether or not [d]
    is [*this].  [packet] is assigned nowhere. *)
Definition copyFrom_fields (now : ptime) (self d : t) : t :=
  {| id           := id d;
     from         := from d;
     fromCurrency := fromCurrency d;
     fromAmount   := fromAmount d;
     to           := to d;
     toCurrency   := toCurrency d;
     toAmount     := toAmount d;
     state        := state d;
     payTx        := payTx d;
     revTx        := revTx d;
     txtime       := now;
     created      := if created self >? created d then created d
                     else created self;
     payTxId      := payTxId d;
     hubAddress   := hubAddress d;
     myAddress    := myAddress d;
     packet       := packet self |}.

(** [void copyFrom(const XBridgeTransactionDescr & d)] on the object at
    [this]. *)
Definition copyFrom (this d : addr) : M unit :=
  self ← load this ;
  src ← load d ;
  now ← universal_time ;
  store this (copyFrom_fields now self src).

(** [XBridgeTransactionDescr & operator = (const XBridgeTransactionDescr & d)];
    the result is the reference [*this]. *)
Definition operator_assign (this d : addr) : M addr :=
  if decide (this = d) then mret this
  else copyFrom this d ;; mret this.

(** A descriptor with the given [state], [created] and [txtime] and every
    other member as default initialisation leaves it: zero identifiers,
    empty vectors and strings, a null packet pointer, and in the scalar
    members [fromAmount] and [toAmount] whatever the storage held ([amt1],
    [amt2]). *)
Definition default_init (amt1 amt2 : Z) (st : State) (c x : ptime) : t :=
  {| id := 0; hubAddress := []; myAddress := [];
     from := []; fromCurrency := EmptyString; fromAmount := amt1;
     to := []; toCurrency := EmptyString; toAmount := amt2;
     state := st; created := c; txtime := x;
     payTxId := 0; payTx := EmptyString; revTx := EmptyString;
     packet := None |}.

(** [XBridgeTransactionDescr()], constructing at [this]: [state],
    [created] and [txtime] have initialisers, and the clock is read once
    for each of the two times. *)
Definition construct (this : addr) (amt1 amt2 : Z) : M unit :=
  c ← universal_time ;
  x ← universal_time ;
  emplace this (default_init amt1 amt2 trNew c x).

(** [XBridgeTransactionDescr(const XBridgeTransactionDescr & d)],
    constructing at [this]: the three assignments of the body, then
    [copyFrom(d)]. *)
Definition copy_construct (this d : addr) (amt1 amt2 : Z) : M unit :=
  c ← universal_time ;
  x ← universal_time ;
  emplace this (default_init amt1 amt2 trNew c x) ;;
  copyFrom this d.

End XBridgeTransactionDescr.

(** ** class XBridgeTransactionMember *)

Module XBridgeTransactionMember.

Record t : Type := mk {
  m_id              : uint256;
  m_sourceAddr      : bytes;
  m_destAddr        : bytes;
  m_transactionHash : uint256
}.

(** [std::vector::empty()] *)
Definition empty (v : bytes) : bool :=
  match v with
  | [] => true
  | _ :: _ => false
  end.

(** [XBridgeTransactionMember()] and
    [XBridgeTransactionMember(const uint256 & id)]: the vectors start
    empty, the hashes zero. *)
Definition new : t := mk 0 [] [] 0.
Definition new_id (id : uint256) : t := mk id [] [] 0.

(** [bool isEmpty() const] *)
Definition isEmpty (m : t) : bool :=
  empty (m_sourceAddr m) || empty (m_destAddr m).

Definition id (m : t) : uint256 := m_id m.
Definition source (m : t) : bytes := m_sourceAddr m.
Definition dest (m : t) : bytes := m_destAddr m.

(** [void setSource(const std::vector<unsigned char> & addr)] *)
Definition setSource (addr : bytes) (m : t) : t :=
  mk (m_id m) addr (m_destAddr m) (m_transactionHash m).

(** [void setDest(const std::vector<unsigned char> & addr)] *)
Definition setDest (addr : bytes) (m : t) : t :=
  mk (m_id m) (m_sourceAddr m) addr (m_transactionHash m).

End XBridgeTransactionMember.

(** ** Fixed-width integers of ctransaction.h *)

(** [(unsigned int) z]: reduction modulo 2^32. *)
Definition to_uint (z : Z) : Z := z mod 2 ^ 32.

(** [int] arithmetic: a result is reduced into [-2^31, 2^31), as the two's
    complement machines the code is built for compute it (the language
    leaves a result out of that range undefined). *)
Definition INT_MIN : Z := - 2 ^ 31.
Definition INT_MAX : Z := 2 ^ 31 - 1.
Definition to_int (z : Z) : Z := (z + 2 ^ 31) mod 2 ^ 32 - 2 ^ 31.

(** [CScript] (script.h): the script's bytes. *)
Definition CScript : Type := bytes.

(** [std::numeric_limits<unsigned int>::max()] *)
Definition UINT_MAX : Z := 2 ^ 32 - 1.

(** [operator==] of [std::vector]: the sizes are equal and the elements
    are equal one by one, in order, by the elements' own [==]
    ([std::equal] over the first range). *)
Fixpoint equal {A : Type} (eq : A -> A -> bool) (u v : list A) : bool :=
  match u, v with
  | [], _ => true
  | x :: u', y :: v' => eq x y && equal eq u' v'
  | _ :: _, [] => false
  end.

Definition vector_eq {A : Type} (eq : A -> A -> bool) (u v : list A) : bool :=
  (length u =? length v)%nat && equal eq u v.

(** [==] on [CScript] and on [std::vector<unsigned char>]. *)
Definition bytes_eq (u v : bytes) : bool := vector_eq Byte.eqb u v.

(** ** class COutPoint *)

Module COutPoint.

Record t : Type := mk {
  hash : uint256;
  n    : Z
}.

(** [void SetNull() { hash = 0; n = (unsigned int) -1; }] *)
Definition SetNull (_ : t) : t := mk 0 (to_uint (-1)).

(** [COutPoint() { SetNull(); }] *)
Definition new : t := SetNull (mk 0 0).

(** [bool IsNull() const] *)
Definition IsNull (o : t) : bool :=
  (hash o =? 0) && (n o =? to_uint (-1)).


(** [friend bool operator==(const COutPoint& a, const COutPoint& b)] *)
Definition operator_eq (a b : t) : bool :=
  (hash a =? hash b) && (n a =? n b).

(** [friend bool operator!=(const COutPoint& a, const COutPoint& b)] *)
Definition operator_ne (a b : t) : bool := negb (operator_eq a b).

End COutPoint.

(** ** class CTxIn *)

Module CTxIn.

Record t : Type := mk {
  prevout   : COutPoint.t;
  scriptSig : CScript;
  nSequence : Z
}.

(** [CTxIn()]: the members are default-constructed (a null prevout, an
    empty script) and the body sets [nSequence]. *)
Definition new : t := mk COutPoint.new [] UINT_MAX.

(** [explicit CTxIn(COutPoint prevoutIn, CScript scriptSigIn, unsigned int
    nSequenceIn)] *)
Definition of_prevout (prevoutIn : COutPoint.t) (scriptSigIn : CScript)
    (nSequenceIn : Z) : t :=
  mk prevoutIn scriptSigIn nSequenceIn.

(** [CTxIn(uint256 hashPrevTx, unsigned int nOut, CScript scriptSigIn,
    unsigned int nSequenceIn)] *)
Definition of_hash (hashPrevTx : uint256) (nOut : Z) (scriptSigIn : CScript)
    (nSequenceIn : Z) : t :=
  mk (COutPoint.mk hashPrevTx nOut) scriptSigIn nSequenceIn.

(** The default arguments of the two constructors:
    [scriptSigIn = CScript()] and
    [nSequenceIn = std::numeric_limits<unsigned int>::max()]. *)
Definition default_scriptSigIn : CScript := [].
Definition default_nSequenceIn : Z := UINT_MAX.

(** [bool IsFinal() const] *)
Definition IsFinal (i : t) : bool := nSequence i =? UINT_MAX.

(** [friend bool operator==(const CTxIn& a, const CTxIn& b)] *)
Definition operator_eq (a b : t) : bool :=
  COutPoint.operator_eq (prevout a) (prevout b)
  && bytes_eq (scriptSig a) (scriptSig b)
  && (nSequence a =? nSequence b).

(** [friend bool operator!=(const CTxIn& a, const CTxIn& b)] *)
Definition operator_ne (a b : t) : bool := negb (operator_eq a b).

End CTxIn.

(** ** class CTxOut *)

Module CTxOut.

Record t : Type := mk {
  nValue       : Z;
  scriptPubKey : CScript
}.

(** [bool IsEmpty() const] *)
Definition IsEmpty (o : t) : bool :=
  (nValue o =? 0) && XBridgeTransactionMember.empty (scriptPubKey o).

(** [void SetNull()] *)
Definition SetNull (_ : t) : t := mk (-1) [].

(** [CTxOut() { SetNull(); }] *)
Definition new : t := SetNull (mk 0 []).

(** [CTxOut(int64 nValueIn, CScript scriptPubKeyIn)] *)
Definition of_value (nValueIn : Z) (scriptPubKeyIn : CScript) : t :=
  mk nValueIn scriptPubKeyIn.

(** [bool IsNull()] *)
Definition IsNull (o : t) : bool := nValue o =? -1.

(** [void SetEmpty()] *)
Definition SetEmpty (_ : t) : t := mk 0 [].

(** [friend bool operator==(const CTxOut& a, const CTxOut& b)] *)
Definition operator_eq (a b : t) : bool :=
  (nValue a =? nValue b) && bytes_eq (scriptPubKey a) (scriptPubKey b).

(** [friend bool operator!=(const CTxOut& a, const CTxOut& b)] *)
Definition operator_ne (a b : t) : bool := negb (operator_eq a b).

End CTxOut.

(** ** class CBTCTransaction *)

Module CBTCTransaction.

Definition CURRENT_VERSION : Z := 1.

Record t : Type := mk {
  nVersion  : Z;
  nTime     : Z;
  vin       : list CTxIn.t;
  vout      : list CTxOut.t;
  nLockTime : Z;
  nDoS      : Z
}.

(** [bool DoS(int nDoSIn, bool fIn) const { nDoS += nDoSIn; return fIn; }]:
    the transaction after the call and the value returned. *)
Definition DoS (nDoSIn : Z) (fIn : bool) (tx : t) : t * bool :=
  (mk (nVersion tx) (nTime tx) (vin tx) (vout tx) (nLockTime tx)
      (to_int (nDoS tx + nDoSIn)),
   fIn).

(** [void SetNull()], with [time0] the value [time(0)] returns. *)
Definition SetNull (time0 : Z) (tx : t) : t :=
  mk CURRENT_VERSION (to_uint time0) [] [] 0 0.

(** [bool IsNull() const] *)
Definition IsNull (tx : t) : bool :=
  (length (vin tx) =? 0)%nat && (length (vout tx) =? 0)%nat.

(** [vin[0].prevout.IsNull()]; the size test before it in each caller
    keeps the index in range. *)
Definition vin0_prevout_IsNull (tx : t) : bool :=
  match vin tx !! 0%nat with
  | Some i => COutPoint.IsNull (CTxIn.prevout i)
  | None => false
  end.

(** [vout[0].IsEmpty()], likewise behind a size test. *)
Definition vout0_IsEmpty (tx : t) : bool :=
  match vout tx !! 0%nat with
  | Some o => CTxOut.IsEmpty o
  | None => false
  end.

(** [bool IsCoinBase() const] *)
Definition IsCoinBase (tx : t) : bool :=
  (length (vin tx) =? 1)%nat && vin0_prevout_IsNull tx
  && (1 <=? length (vout tx))%nat.

(** [bool IsCoinStake() const] *)
Definition IsCoinStake (tx : t) : bool :=
  (0 <? length (vin tx))%nat && negb (vin0_prevout_IsNull tx)
  && (2 <=? length (vout tx))%nat && vout0_IsEmpty tx.

(** [bool IsCoinBaseOrStake() const] *)
Definition IsCoinBaseOrStake (tx : t) : bool :=
  IsCoinBase tx || IsCoinStake tx.

(** [CBTCTransaction() { SetNull(); }] *)
Definition new (time0 : Z) : t := SetNull time0 (mk 0 0 [] [] 0 0).

(** The test of the first loop of [IsNewerThan] at index [i]:
    [vin[i].prevout != old.vin[i].prevout]. *)
Definition prevout_differs (tx old : t) (i : nat) : bool :=
  match vin tx !! i, vin old !! i with
  | Some a, Some b => COutPoint.operator_ne (CTxIn.prevout a) (CTxIn.prevout b)
  | _, _ => false
  end.

(** The body of the second loop of [IsNewerThan] on the pair of sequence
    numbers at one index, acting on [(fNewer, nLowest)]. *)
Definition newer_body (nseq oseq : Z) (st : bool * Z) : bool * Z :=
  if negb (nseq =? oseq) then
    let st1 := if nseq <=? snd st then (false, nseq) else st in
    if oseq <? snd st1 then (true, oseq) else st1
  else st.

(** One turn of the second loop, at index [i]. *)
Definition newer_step (tx old : t) (st : bool * Z) (i : nat) : bool * Z :=
  match vin tx !! i, vin old !! i with
  | Some a, Some b => newer_body (CTxIn.nSequence a) (CTxIn.nSequence b) st
  | _, _ => st
  end.

(** [bool IsNewerThan(const CBTCTransaction& old) const]: both loops run
    [i] from 0 up to [vin.size()]; the first returns false at the first
    index whose prevouts differ. *)
Definition IsNewerThan (tx old : t) : bool :=
  if negb (length (vin tx) =? length (vin old))%nat then false
  else if existsb (prevout_differs tx old) (seq 0 (length (vin tx))) then false
  else fst (fold_left (newer_step tx old) (seq 0 (length (vin tx)))
                      (false, UINT_MAX)).

(** [friend bool operator==(const CBTCTransaction& a, const CBTCTransaction& b)];
    the comparison of [nTime] is commented out in the source. *)
Definition operator_eq (a b : t) : bool :=
  (nVersion a =? nVersion b)
  && vector_eq CTxIn.operator_eq (vin a) (vin b)
  && vector_eq CTxOut.operator_eq (vout a) (vout b)
  && (nLockTime a =? nLockTime b).

(** [friend bool operator!=(const CBTCTransaction& a, const CBTCTransaction& b)] *)
Definition operator_ne (a b : t) : bool := negb (operator_eq a b).

End CBTCTransaction.

(** ** class CTransaction : public CBTCTransaction

    The derived class adds no member; its [==] compares [nTime] too. *)

Module CTransaction.

Definition t : Type := CBTCTransaction.t.

(** [CTransaction() : CBTCTransaction()] *)
Definition new (time0 : Z) : t := CBTCTransaction.new time0.

(** [friend bool operator==(const CTransaction& a, const CTransaction& b)] *)
Definition operator_eq (a b : t) : bool :=
  (CBTCTransaction.nVersion a =? CBTCTransaction.nVersion b)
  && (CBTCTransaction.nTime a =? CBTCTransaction.nTime b)
  && vector_eq CTxIn.operator_eq (CBTCTransaction.vin a) (CBTCTransaction.vin b)
  && vector_eq CTxOut.operator_eq (CBTCTransaction.vout a) (CBTCTransaction.vout b)
  && (CBTCTransaction.nLockTime a =? CBTCTransaction.nLockTime b).

End CTransaction.

(** ** class XBridge

    The header declares the class; the bodies of its constructor and of
    [run], [stop] and [onTimer] are not among the sources.  Only the
    enumerators are embedded. *)

Module XBridge.

Definition THREAD_COUNT : Z := 2.
Definition TIMER_INTERVAL : Z := 20.

End XBridge.

(** ** Sample data

    The scenario of the specification: a descriptor A (100 units of CoinX
    for 50 units of CoinY, first seen at [T0]) and a relayed duplicate A' of
    the same id first seen five ticks earlier. *)

Module Scenario.
Import XBridgeTransactionDescr.

Definition T0 : ptime := 1000.

Definition descrA : t :=
  {| id := 42; hubAddress := [Byte.x01]; myAddress := [Byte.x02];
     from := [Byte.x0a]; fromCurrency := "CoinX"; fromAmount := 100;
     to := [Byte.x0b]; toCurrency := "CoinY"; toAmount := 50;
     state := trPending; created := T0; txtime := T0;
     payTxId := 0; payTx := ""; revTx := "";
     packet := Some 1%positive |}.

Definition descrA' : t :=
  {| id := 42; hubAddress := [Byte.x03]; myAddress := [Byte.x02];
     from := [Byte.x0a]; fromCurrency := "CoinX"; fromAmount := 100;
     to := [Byte.x0b]; toCurrency := "CoinY"; toAmount := 50;
     state := trAccepting; created := T0 - 5; txtime := T0 - 5;
     payTxId := 7; payTx := "pay"; revTx := "rev";
     packet := Some 2%positive |}.

(** A at address 1, A' at address 2; the clock reads [T0 + 30] next. *)
Definition world : World :=
  mkWorld (<[1%positive := descrA]> (<[2%positive := descrA']> ∅))
          (fun k => T0 + 30 + Z.of_nat k) 0.


(** A later offer. *)
Definition laterA : t :=
  {| id := 44; hubAddress := []; myAddress := [];
     from := []; fromCurrency := ""; fromAmount := 2;
     to := []; toCurrency := ""; toAmount := 3;
     state := trNew; created := T0 + 5; txtime := T0 + 5;
     payTxId := 0; payTx := ""; revTx := ""; packet := None |}.

End Scenario.

(** Sample members: one with both addresses bound, one with the
    destination still missing. *)

Module MemberScenario.
Import XBridgeTransactionMember.

Definition bound : t :=
  setDest [Byte.x0b; Byte.x0c] (setSource [Byte.x0a] (new_id 42)).

Definition half_bound : t := setSource [Byte.x0a] (new_id 42).

End MemberScenario.

(** Sample transactions. *)

Module TxScenario.
Import CBTCTransaction.

(** A transaction as its constructor leaves it, at [time(0) = 1700000000]. *)
Definition fresh : t := SetNull 1700000000 (mk 0 0 [] [] 0 0).

(** The same with the counter at the largest [int]. *)
Definition saturated : t := mk CURRENT_VERSION 1700000000 [] [] 0 INT_MAX.

(** One input with a null prevout, one output. *)
Definition coinbase : t :=
  mk CURRENT_VERSION 1700000000
     [CTxIn.mk COutPoint.new [Byte.x04] (to_uint (-1))]
     [CTxOut.mk 50 [Byte.x76]] 0 0.

(** One input spending output 0 of transaction 5, an empty first output. *)
Definition coinstake : t :=
  mk CURRENT_VERSION 1700000000
     [CTxIn.mk (COutPoint.mk 5 0) [Byte.x04] (to_uint (-1))]
     [CTxOut.mk 0 []; CTxOut.mk 60 [Byte.x76]] 0 0.

End TxScenario.

(** ** Predicates used in the statements *)

Section Predicates.
Import XBridgeTransactionDescr.

(** The fields a merge takes from the incoming copy: all but [created],
    [txtime] and [packet]. *)
Definition takes_incoming (a' b : t) : Prop :=
  id a' = id b /\
  hubAddress a' = hubAddress b /\ myAddress a' = myAddress b /\
  from a' = from b /\ fromCurrency a' = fromCurrency b /\
  fromAmount a' = fromAmount b /\
  to a' = to b /\ toCurrency a' = toCurrency b /\ toAmount a' = toAmount b /\
  state a' = state b /\
  payTxId a' = payTxId b /\ payTx a' = payTx b /\ revTx a' = revTx b.

End Predicates.

(** ** cryptopop: the SHA-1 based digest (c_sha1.c) *)

Module Cryptopop.

(** [SHA_DIGEST_LENGTH] of OpenSSL. *)
Definition SHA_DIGEST_LENGTH : nat := 20.

(** [~(input[i])] stored in a [uint8_t]: each of the eight bits flipped. *)
Definition complement (b : Byte.byte) : Byte.byte :=
  let '(b0, (b1, (b2, (b3, (b4, (b5, (b6, b7))))))) := Byte.to_bits b in
  Byte.of_bits (negb b0, (negb b1, (negb b2, (negb b3,
               (negb b4, (negb b5, (negb b6, negb b7))))))).

Section Digest.

(** OpenSSL's [SHA1_Init], [SHA1_Update], [SHA1_Final] over a buffer: the
    digest, [SHA_DIGEST_LENGTH] bytes. *)
Variable SHA1 : bytes -> bytes.

(** [reduce_bit(in, inLen, out, outBits)] and [INPUT_LEN] of common.h,
    which is missing. *)
Variable reduce_bit : bytes -> nat -> nat -> bytes.
Variable INPUT_LEN : nat.

(** The 40 bytes of [result] before [reduce_bit]: the digest of the input,
    then the digest of the complemented input. *)
Definition sha1_result (input : bytes) : bytes :=
  SHA1 input ++ SHA1 (map complement input).

(** [void cryptopop_sha1(uint8_t *input, uint32_t inputLen, uint8_t *output)]:
    the bytes written to [output]; [None] when [inputLen] exceeds the
    [INPUT_LEN] bytes of [inputStr]. *)
Definition cryptopop_sha1 (input : bytes) : option bytes :=
  if (length input <=? INPUT_LEN)%nat
  then Some (reduce_bit (sha1_result input) (SHA_DIGEST_LENGTH * 2) 256)
  else None.

End Digest.

(** Stand-ins for the two library functions, to run the digest on samples:
    a 20-byte and a 32-byte prefix, zero-padded. *)
Definition prefix20 (x : bytes) : bytes := firstn 20 (x ++ repeat Byte.x00 20).
Definition prefix_bits (x : bytes) (len bits : nat) : bytes :=
  firstn (bits / 8) (firstn len x).

End Cryptopop.

(** ** Predicates on transactions *)

Section TxPredicates.
Import CBTCTransaction.

(** Every sequence number of [tx] is an [unsigned int]. *)
Definition seqs_in_range (tx : t) : Prop :=
  Forall (fun a => 0 <= CTxIn.nSequence a <= UINT_MAX) (vin tx).

(** Every input of [tx] is final. *)
Definition all_final (tx : t) : Prop :=
  Forall (fun a => CTxIn.IsFinal a = true) (vin tx).

(** The sequence numbers of two input vectors, index by index. *)
Fixpoint seq_pairs (l1 l2 : list CTxIn.t) : list (Z * Z) :=
  match l1, l2 with
  | a :: l1', b :: l2' =>
      (CTxIn.nSequence a, CTxIn.nSequence b) :: seq_pairs l1' l2'
  | _, _ => []
  end.

Definition pair_body (st : bool * Z) (p : Z * Z) : bool * Z :=
  newer_body (fst p) (snd p) st.

(** [x] is below the first component of every pair of unequal numbers. *)
Definition below (x : Z) (P : list (Z * Z)) : Prop :=
  forall s o, In (s, o) P -> s <> o -> x < s.

(** Some pair of unequal numbers has a second component under [x] that is
    below the first components. *)
Definition older_below (x : Z) (P : list (Z * Z)) : Prop :=
  exists s o, In (s, o) P /\ s <> o /\ o < x /\ below o P.

End TxPredicates.

(** Sample data for replacement: three versions of a two-input
    transaction over the same prevouts; [draft1] has the sequence numbers
    5 and 7, [draft2] 5 and 3, [final] has both inputs final. *)

Module ReplaceScenario.
Import CBTCTransaction.

Definition out1 : COutPoint.t := COutPoint.mk 11 0.
Definition out2 : COutPoint.t := COutPoint.mk 11 1.

Definition inputs (s1 s2 : Z) : list CTxIn.t :=
  [CTxIn.of_prevout out1 [Byte.x51] s1; CTxIn.of_prevout out2 [Byte.x52] s2].

Definition pay : list CTxOut.t := [CTxOut.of_value 25 [Byte.x76]].

Definition draft1 : t := mk CURRENT_VERSION 1700000000 (inputs 5 7) pay 0 0.
Definition draft2 : t := mk CURRENT_VERSION 1700000050 (inputs 5 3) pay 0 0.
Definition final : t :=
  mk CURRENT_VERSION 1700000100 (inputs UINT_MAX UINT_MAX) pay 0 0.

End ReplaceScenario.

(** A world with three descriptors: A at 1, A' at 2, a later offer at 3. *)

Module MergeScenario.
Import XBridgeTransactionDescr.

Definition world : World :=
  mkWorld (<[1%positive := Scenario.descrA]>
             (<[2%positive := Scenario.descrA']>
                (<[3%positive := Scenario.laterA]> ∅)))
          (fun k => Scenario.T0 + 30 + Z.of_nat k) 0.

End MergeScenario.

(** * Properties *)

(** ** Descriptor: running [copyFrom] and [operator =] *)

Section DescrRun.
Import XBridgeTransactionDescr.

Implicit Types (w : World) (p q : addr) (a b : t).

(** [copyFrom] succeeds on two live objects: it takes one clock reading
    and replaces the object at [p]. *)
Lemma copyFrom_run w p q a b :
  objs w !! p = Some a ->
  objs w !! q = Some b ->
  copyFrom p q w =
    Some (tt, mkWorld (<[p := copyFrom_fields (clock w (reads w)) a b]> (objs w))
                      (clock w) (Datatypes.S (reads w))).
Proof.
  intros Hp Hq.
  unfold copyFrom, mbind, M_bind, load, universal_time, store; cbn.
  rewrite Hp, Hq; cbn. now rewrite Hp.
Qed.

Lemma operator_assign_self w p : operator_assign p p w = Some (p, w).
Proof.
  unfold operator_assign. destruct (decide (p = p)) as [_|Hne]; [reflexivity|].
  now contradiction Hne.
Qed.

Lemma operator_assign_run w p q a b :
  p <> q ->
  objs w !! p = Some a ->
  objs w !! q = Some b ->
  operator_assign p q w =
    Some (p, mkWorld (<[p := copyFrom_fields (clock w (reads w)) a b]> (objs w))
                     (clock w) (Datatypes.S (reads w))).
Proof.
  intros Hne Hp Hq. unfold operator_assign.
  destruct (decide (p = q)) as [He|_]; [contradiction|].
  unfold mbind, M_bind. now rewrite (copyFrom_run w p q a b Hp Hq).
Qed.

(** The [created] that [copyFrom] leaves is the earlier of the two. *)
Lemma copyFrom_fields_created now a b :
  created (copyFrom_fields now a b) = Z.min (created a) (created b).
Proof.
  cbn. destruct (Z.gtb_spec (created a) (created b)); lia.
Qed.

End DescrRun.

(** ** Merging descriptors *)

Section DescrMerge.
Import XBridgeTransactionDescr.

Implicit Types (w : World) (p q : addr) (a b : t).

Lemma copyFrom_fields_takes_incoming now a b :
  takes_incoming (copyFrom_fields now a b) b.
Proof. unfold takes_incoming; cbn. repeat split. Qed.

(** C1. For two descriptors of the same id, the existing one at [p] and
    the incoming one at [q], the merge by [copyFrom] (and so by
    [operator =] from a distinct object) succeeds, leaves in [created] the
    minimum of the two [created] values and in [txtime] the clock reading
    taken by the merge; [created] does not increase. *)
Theorem merge_keeps_min_created_refreshes_txtime :
  forall w p q a b,
    objs w !! p = Some a ->
    objs w !! q = Some b ->
    id a = id b ->
    (exists w' a',
        copyFrom p q w = Some (tt, w') /\
        objs w' !! p = Some a' /\
        created a' = Z.min (created a) (created b) /\
        txtime a' = clock w (reads w) /\
        created a' <= created a) /\
    (p <> q ->
     exists w' a',
        operator_assign p q w = Some (p, w') /\
        objs w' !! p = Some a' /\
        created a' = Z.min (created a) (created b) /\
        txtime a' = clock w (reads w) /\
        created a' <= created a).
Proof.
  intros w p q a b Hp Hq _.
  pose proof (copyFrom_fields_created (clock w (reads w)) a b) as Hmin.
  split; [|intros Hne]; eexists; eexists.
  - split; [apply (copyFrom_run w p q a b Hp Hq)|].
    cbn. rewrite lookup_insert_eq. split; [reflexivity|].
    split; [exact Hmin|]. split; [reflexivity|]. rewrite Hmin. lia.
  - split; [apply (operator_assign_run w p q a b Hne Hp Hq)|].
    cbn. rewrite lookup_insert_eq. split; [reflexivity|].
    split; [exact Hmin|]. split; [reflexivity|]. rewrite Hmin. lia.
Qed.

(** The scenario: A at [T0] merged with A' at [T0 - 5] gives [T0 - 5],
    and [txtime] is the reading [T0 + 30]. *)
Lemma merge_keeps_min_created_refreshes_txtime_witness :
  exists w' a',
    operator_assign 1%positive 2%positive Scenario.world = Some (1%positive, w') /\
    objs w' !! 1%positive = Some a' /\
    created a' = Scenario.T0 - 5 /\
    txtime a' = Scenario.T0 + 30 /\
    created a' <= Scenario.T0.
Proof.
  destruct (merge_keeps_min_created_refreshes_txtime
              Scenario.world 1%positive 2%positive
              Scenario.descrA Scenario.descrA'
              eq_refl eq_refl eq_refl) as [_ H].
  destruct (H ltac:(discriminate)) as (w' & a' & H1 & H2 & H3 & H4 & H5).
  exists w', a'. repeat split; assumption.
Defined.

Example merge_scenario :
  copyFrom_fields (Scenario.T0 + 30) Scenario.descrA Scenario.descrA'
    = {| id := 42; hubAddress := [Byte.x03]; myAddress := [Byte.x02];
         from := [Byte.x0a]; fromCurrency := "CoinX"; fromAmount := 100;
         to := [Byte.x0b]; toCurrency := "CoinY"; toAmount := 50;
         state := trAccepting;
         created := Scenario.T0 - 5; txtime := Scenario.T0 + 30;
         payTxId := 7; payTx := "pay"; revTx := "rev";
         packet := Some 1%positive |}.
Proof. reflexivity. Qed.

(** The copy constructor goes through [copyFrom] as well: the copy has
    the fields of the original, the earlier of its own construction time
    and the original's [created], and a null packet pointer. *)
Lemma copy_construct_run w p q b amt1 amt2 :
  p <> q ->
  objs w !! q = Some b ->
  exists w' a',
    copy_construct p q amt1 amt2 w = Some (tt, w') /\
    objs w' !! p = Some a' /\
    takes_incoming a' b /\
    created a' = Z.min (clock w (reads w)) (created b) /\
    txtime a' = clock w (Datatypes.S (Datatypes.S (reads w))) /\
    packet a' = None.
Proof.
  intros Hne Hq.
  set (o := default_init amt1 amt2 trNew (clock w (reads w))
                         (clock w (Datatypes.S (reads w)))).
  set (w1 := mkWorld (<[p := o]> (objs w)) (clock w)
                     (Datatypes.S (Datatypes.S (reads w)))).
  assert (objs w1 !! p = Some o) as Hp1 by apply lookup_insert_eq.
  assert (objs w1 !! q = Some b) as Hq1
    by (cbn; rewrite lookup_insert_ne; assumption).
  pose proof (copyFrom_run w1 p q o b Hp1 Hq1) as Hrun.
  eexists; eexists. split; [exact Hrun|].
  cbn. rewrite lookup_insert_eq. split; [reflexivity|].
  split; [apply copyFrom_fields_takes_incoming|].
  split; [apply copyFrom_fields_created|]. split; reflexivity.
Qed.

(** C2, as the code has it. Assigning the descriptor at [q] to the one
    at [p] succeeds and gives every field other than [created], [txtime]
    and [packet] the incoming value; the packet pointer of the existing
    descriptor stays. *)
Theorem assign_overwrites_all_but_times_and_packet :
  forall w p q a b,
    objs w !! p = Some a ->
    objs w !! q = Some b ->
    exists w' a',
      operator_assign p q w = Some (p, w') /\
      objs w' !! p = Some a' /\
      takes_incoming a' b /\
      packet a' = packet a.
Proof.
  intros w p q a b Hp Hq.
  destruct (decide (p = q)) as [->|Hne].
  - exists w, a. rewrite operator_assign_self.
    assert (a = b) as -> by congruence.
    repeat split; assumption.
  - eexists; eexists.
    split; [apply (operator_assign_run w p q a b Hne Hp Hq)|].
    cbn. rewrite lookup_insert_eq. split; [reflexivity|].
    split; [apply copyFrom_fields_takes_incoming | reflexivity].
Qed.

Lemma assign_overwrites_all_but_times_and_packet_witness :
  exists w' a',
    operator_assign 1%positive 2%positive Scenario.world = Some (1%positive, w') /\
    objs w' !! 1%positive = Some a' /\
    takes_incoming a' Scenario.descrA' /\
    packet a' = Some 1%positive.
Proof.
  exact (assign_overwrites_all_but_times_and_packet
           Scenario.world 1%positive 2%positive
           Scenario.descrA Scenario.descrA' eq_refl eq_refl).
Defined.

(** C2, as stated, fails: in the scenario the merged descriptor keeps the
    packet of A, it does not take the packet of A'. *)
Lemma assign_does_not_copy_packet :
  ~ (forall w p q a b w' a',
        objs w !! p = Some a ->
        objs w !! q = Some b ->
        id a = id b ->
        operator_assign p q w = Some (p, w') ->
        objs w' !! p = Some a' ->
        takes_incoming a' b /\ packet a' = packet b).
Proof.
  intros H.
  pose proof (operator_assign_run Scenario.world 1%positive 2%positive
                Scenario.descrA Scenario.descrA'
                ltac:(discriminate) eq_refl eq_refl) as Hrun.
  destruct (H Scenario.world 1%positive 2%positive
              Scenario.descrA Scenario.descrA' _ _
              eq_refl eq_refl eq_refl Hrun (lookup_insert_eq _ _ _))
    as [_ Hbad].
  discriminate Hbad.
Qed.

(** C9. Assigning a descriptor to itself changes nothing: the world after
    it is the world before it, no clock reading is taken and [txtime]
    stays; assigning from a distinct descriptor takes a reading and puts
    it in [txtime]. *)
Theorem self_assignment_is_a_no_op :
  (forall w p, operator_assign p p w = Some (p, w)) /\
  (forall w p d w',
      objs w !! p = Some d ->
      operator_assign p p w = Some (p, w') ->
      objs w' !! p = Some d /\ reads w' = reads w) /\
  (forall w p q a b,
      p <> q ->
      objs w !! p = Some a ->
      objs w !! q = Some b ->
      exists w' a',
        operator_assign p q w = Some (p, w') /\
        objs w' !! p = Some a' /\
        txtime a' = clock w (reads w) /\
        reads w' = Datatypes.S (reads w)).
Proof.
  split; [exact operator_assign_self|]. split.
  - intros w p d w' Hp Hrun. rewrite operator_assign_self in Hrun.
    injection Hrun as <-. split; [exact Hp | reflexivity].
  - intros w p q a b Hne Hp Hq. eexists; eexists.
    split; [apply (operator_assign_run w p q a b Hne Hp Hq)|].
    cbn. rewrite lookup_insert_eq. repeat split.
Qed.

(** In the scenario the clock would read [T0 + 30], yet A assigned to
    itself keeps [txtime = T0]; assigned from A' it gets [T0 + 30]. *)
Lemma self_assignment_is_a_no_op_witness :
  operator_assign 1%positive 1%positive Scenario.world
    = Some (1%positive, Scenario.world) /\
  (objs Scenario.world !! 1%positive = Some Scenario.descrA /\
   txtime Scenario.descrA = Scenario.T0) /\
  exists w' a',
    operator_assign 1%positive 2%positive Scenario.world = Some (1%positive, w') /\
    objs w' !! 1%positive = Some a' /\
    txtime a' = Scenario.T0 + 30 /\
    reads w' = 1%nat.
Proof.
  destruct self_assignment_is_a_no_op as (Hself & Hkeep & Hother).
  split; [apply Hself|].
  split.
  - destruct (Hkeep Scenario.world 1%positive Scenario.descrA Scenario.world
                eq_refl (Hself _ _)) as [Hd _].
    split; [exact Hd | reflexivity].
  - exact (Hother Scenario.world 1%positive 2%positive
             Scenario.descrA Scenario.descrA' ltac:(discriminate) eq_refl eq_refl).
Defined.

End DescrMerge.

(** ** Ordering descriptors *)

Section DescrOrder.
Import XBridgeTransactionDescr.

Implicit Types (a b c x y : t) (l : list t).

Lemma lt_created a b : lt a b = true <-> created a < created b.
Proof. unfold lt. apply Z.ltb_lt. Qed.

Lemma lt_false_created a b : lt a b = false <-> created b <= created a.
Proof. unfold lt. apply Z.ltb_ge. Qed.

Lemma gt_created a b : gt a b = true <-> created a > created b.
Proof.
  unfold gt. rewrite Z.gtb_ltb, Z.ltb_lt. lia.
Qed.





End DescrOrder.

(** ** The state enumeration *)

Section DescrState.
Import XBridgeTransactionDescr.

(** C4. [State] has exactly 13 values, declared in the order New,
    Pending, Accepting, Hold, Created, Signed, Commited, Finished, Rollback,
    Dropped, Cancelled, Invalid, Expired and numbered 0 to 12 in that order;
    a descriptor built by the default constructor is in state New. *)
Theorem state_has_13_values_and_starts_new :
  State_enumerators =
    [trNew; trPending; trAccepting; trHold; trCreated; trSigned; trCommited;
     trFinished; trRollback; trDropped; trCancelled; trInvalid; trExpired] /\
  length State_enumerators = 13%nat /\
  (forall s : State, In s State_enumerators) /\
  List.NoDup State_enumerators /\
  map State_value State_enumerators = [0; 1; 2; 3; 4; 5; 6; 7; 8; 9; 10; 11; 12] /\
  (forall (s : State), 0 <= State_value s <= 12) /\
  State_value trNew = 0 /\
  (forall (w : World) (p : addr) (amt1 amt2 : Z),
      exists w' d,
        construct p amt1 amt2 w = Some (tt, w') /\
        objs w' !! p = Some d /\
        state d = trNew).
Proof.
  split; [reflexivity|]. split; [reflexivity|].
  split; [intros []; cbn; tauto|].
  split.
  { repeat (apply List.NoDup_cons; [cbn; intuition discriminate|]).
    apply List.NoDup_nil. }
  split; [reflexivity|].
  split; [intros []; cbn; lia|].
  split; [reflexivity|].
  intros w p amt1 amt2. eexists; eexists.
  split; [reflexivity|]. cbn. rewrite lookup_insert_eq.
  split; reflexivity.
Qed.

End DescrState.

(** ** The constants *)

(** C6. [COIN] is 1,000,000 units per whole coin and [MIN_TX_FEE] is 100
    units; both are exact integers, a fee floor of one ten-thousandth of a
    coin. *)
Theorem coin_and_min_fee_constants :
  XBridgeTransactionDescr.COIN = 1000000 /\
  XBridgeTransactionDescr.MIN_TX_FEE = 100 /\
  XBridgeTransactionDescr.COIN = 10 ^ 6 /\
  XBridgeTransactionDescr.MIN_TX_FEE * 10000 = XBridgeTransactionDescr.COIN.
Proof. repeat split. Qed.

(** ** Member binding *)

Section Member.
Import XBridgeTransactionMember.

Implicit Types (m : t) (s d : bytes).

Lemma empty_nil (v : bytes) : empty v = true <-> v = [].
Proof. destruct v; cbn; split; congruence. Qed.

Lemma isEmpty_true m :
  isEmpty m = true <-> source m = [] \/ dest m = [].
Proof.
  unfold isEmpty, source, dest.
  rewrite orb_true_iff, !empty_nil. reflexivity.
Qed.

Lemma isEmpty_false m :
  isEmpty m = false <-> source m <> [] /\ dest m <> [].
Proof.
  rewrite <- not_true_iff_false, isEmpty_true. tauto.
Qed.

(** C5. [isEmpty] is true exactly when the source address or the
    destination address is empty, so a member is complete ([isEmpty]
    false) exactly when both are non-empty; this is so for a new member and
    after any sequence of calls of the setters, which store the addresses
    they are given. *)
Theorem member_complete_iff_both_addresses :
  (forall m, isEmpty m = true <-> source m = [] \/ dest m = []) /\
  (forall m, isEmpty m = false <-> source m <> [] /\ dest m <> []) /\
  (forall m s, source (setSource s m) = s /\ dest (setSource s m) = dest m) /\
  (forall m d, dest (setDest d m) = d /\ source (setDest d m) = source m) /\
  (forall m s d,
      isEmpty (setDest d (setSource s m)) = true <-> s = [] \/ d = []) /\
  (forall m s d,
      isEmpty (setSource s (setDest d m)) = true <-> s = [] \/ d = []) /\
  isEmpty new = true /\
  (forall i, isEmpty (new_id i) = true).
Proof.
  split; [exact isEmpty_true|]. split; [exact isEmpty_false|].
  split; [intros; split; reflexivity|].
  split; [intros; split; reflexivity|].
  split; [intros m s d; apply isEmpty_true|].
  split; [intros m s d; apply isEmpty_true|].
  split; reflexivity.
Qed.

Lemma member_complete_iff_both_addresses_witness :
  isEmpty MemberScenario.bound = false /\
  isEmpty MemberScenario.half_bound = true /\
  isEmpty (setSource [] MemberScenario.bound) = true /\
  source MemberScenario.bound = [Byte.x0a] /\
  dest MemberScenario.bound = [Byte.x0b; Byte.x0c].
Proof.
  destruct member_complete_iff_both_addresses
    as (Htrue & Hfalse & Hsrc & Hdst & Hboth & _).
  split; [apply Hfalse; split; discriminate|].
  split; [apply Htrue; right; reflexivity|].
  split; [apply Htrue; left; reflexivity|].
  split; [reflexivity|].
  apply (Hdst (setSource [Byte.x0a] (new_id 42)) [Byte.x0b; Byte.x0c]).
Defined.

End Member.

(** ** The transaction's denial-of-service counter *)

Section TxDoS.
Import CBTCTransaction.

Implicit Types (tx : t) (n : Z) (f : bool).

Lemma to_int_in_range z : INT_MIN <= z <= INT_MAX -> to_int z = z.
Proof.
  unfold INT_MIN, INT_MAX, to_int. intros H.
  rewrite Z.mod_small; lia.
Qed.

Lemma to_int_range z : INT_MIN <= to_int z <= INT_MAX.
Proof.
  unfold INT_MIN, INT_MAX, to_int.
  pose proof (Z.mod_pos_bound (z + 2 ^ 31) (2 ^ 32) ltac:(lia)). lia.
Qed.

Example to_int_past_int_max : to_int (INT_MAX + 1) = INT_MIN.
Proof. reflexivity. Qed.

Example DoS_on_saturated :
  DoS 1 true TxScenario.saturated
    = (mk CURRENT_VERSION 1700000000 [] [] 0 (-2147483648), true).
Proof. reflexivity. Qed.

(** C7, as the code has it. [DoS(n, f)] returns [f] and changes no field
    but the counter; the counter becomes the sum reduced to an [int], which
    is the counter plus [n] whenever that sum is an [int]; [SetNull] sets
    the counter to 0. *)
Theorem DoS_accumulates_within_int :
  (forall tx n f,
      snd (DoS n f tx) = f /\
      nVersion (fst (DoS n f tx)) = nVersion tx /\
      nTime (fst (DoS n f tx)) = nTime tx /\
      vin (fst (DoS n f tx)) = vin tx /\
      vout (fst (DoS n f tx)) = vout tx /\
      nLockTime (fst (DoS n f tx)) = nLockTime tx /\
      nDoS (fst (DoS n f tx)) = to_int (nDoS tx + n) /\
      INT_MIN <= nDoS (fst (DoS n f tx)) <= INT_MAX) /\
  (forall tx n f,
      INT_MIN <= nDoS tx + n <= INT_MAX ->
      nDoS (fst (DoS n f tx)) = nDoS tx + n) /\
  (forall tx time0, nDoS (SetNull time0 tx) = 0).
Proof.
  split; [intros; repeat split; cbn; apply to_int_range|].
  split; [|reflexivity].
  intros tx n f H. cbn. now apply to_int_in_range.
Qed.

(** A fresh transaction charged 10 and then 100 holds 110; a reset
    brings the counter back to 0. *)
Lemma DoS_accumulates_within_int_witness :
  nDoS TxScenario.fresh = 0 /\
  DoS 10 true TxScenario.fresh
    = (mk CURRENT_VERSION 1700000000 [] [] 0 10, true) /\
  nDoS (fst (DoS 100 false (fst (DoS 10 true TxScenario.fresh)))) = 110 /\
  nDoS (SetNull 1700000001 (fst (DoS 10 true TxScenario.fresh))) = 0.
Proof.
  destruct DoS_accumulates_within_int as (_ & Hadd & Hnull).
  split; [apply (Hnull (mk 0 0 [] [] 0 0))|].
  split; [reflexivity|].
  split; [|apply Hnull].
  rewrite (Hadd (fst (DoS 10 true TxScenario.fresh)) 100 false).
  - rewrite (Hadd TxScenario.fresh 10 true); cbn; unfold INT_MIN, INT_MAX; lia.
  - rewrite (Hadd TxScenario.fresh 10 true); cbn; unfold INT_MIN, INT_MAX; lia.
Defined.

(** C7, as stated, fails: with the counter at the largest [int], one more
    point does not leave the counter one higher, although the counter and
    the increment are both [int] values. *)
Lemma DoS_wraps_at_int_max :
  ~ (forall tx n f,
        INT_MIN <= nDoS tx <= INT_MAX ->
        INT_MIN <= n <= INT_MAX ->
        nDoS (fst (DoS n f tx)) = nDoS tx + n).
Proof.
  intros H.
  specialize (H TxScenario.saturated 1 true).
  cbn in H. unfold INT_MIN, INT_MAX in H.
  specialize (H ltac:(lia) ltac:(lia)).
  vm_compute in H. discriminate H.
Qed.

End TxDoS.

(** ** Coinbase and coinstake *)

Section TxKind.
Import CBTCTransaction.

Implicit Types (tx : t).

Lemma IsCoinBase_inv tx :
  IsCoinBase tx = true ->
  exists i, vin tx = [i] /\ COutPoint.IsNull (CTxIn.prevout i) = true
            /\ (1 <= length (vout tx))%nat.
Proof.
  unfold IsCoinBase, vin0_prevout_IsNull.
  rewrite !andb_true_iff, Nat.eqb_eq, Nat.leb_le.
  intros [[Hlen Hnull] Hout].
  destruct (vin tx) as [|i [|j rest]]; cbn in *; try discriminate.
  exists i. auto.
Qed.

Lemma IsCoinStake_inv tx :
  IsCoinStake tx = true ->
  exists i rest o outs,
    vin tx = i :: rest /\ COutPoint.IsNull (CTxIn.prevout i) = false /\
    vout tx = o :: outs /\ outs <> [] /\ CTxOut.IsEmpty o = true.
Proof.
  unfold IsCoinStake, vin0_prevout_IsNull, vout0_IsEmpty.
  rewrite !andb_true_iff, negb_true_iff, Nat.ltb_lt, Nat.leb_le.
  intros [[[Hlen Hnull] Hout] Hempty].
  destruct (vin tx) as [|i rest]; cbn in *; [lia|].
  destruct (vout tx) as [|o [|o' outs]]; cbn in *; try lia.
  exists i, rest, o, (o' :: outs). repeat split; auto; discriminate.
Qed.

Lemma not_both tx : IsCoinBase tx && IsCoinStake tx = false.
Proof.
  destruct (IsCoinBase tx) eqn:Hb, (IsCoinStake tx) eqn:Hs; try reflexivity.
  apply IsCoinBase_inv in Hb as (i & Hi & Hnull & _).
  apply IsCoinStake_inv in Hs as (j & rest & _ & _ & Hj & Hnn & _).
  rewrite Hi in Hj. injection Hj as -> _. congruence.
Qed.

(** C10. No transaction is both coinbase and coinstake: a coinbase has a
    single input whose prevout is null, a coinstake has a first input whose
    prevout is not null; [IsCoinBaseOrStake] holds when exactly one of the
    two holds. *)
Theorem coinbase_and_coinstake_exclusive :
  (forall tx, IsCoinBase tx && IsCoinStake tx = false) /\
  (forall tx, ~ (IsCoinBase tx = true /\ IsCoinStake tx = true)) /\
  (forall tx,
      IsCoinBase tx = true ->
      exists i, vin tx = [i] /\ COutPoint.IsNull (CTxIn.prevout i) = true) /\
  (forall tx,
      IsCoinStake tx = true ->
      exists i rest,
        vin tx = i :: rest /\ COutPoint.IsNull (CTxIn.prevout i) = false) /\
  (forall tx, IsCoinBaseOrStake tx = xorb (IsCoinBase tx) (IsCoinStake tx)) /\
  (forall tx,
      IsCoinBaseOrStake tx = true <->
      (IsCoinBase tx = true /\ IsCoinStake tx = false) \/
      (IsCoinBase tx = false /\ IsCoinStake tx = true)).
Proof.
  split; [exact not_both|].
  split.
  { intros tx [Hb Hs]. pose proof (not_both tx) as H.
    rewrite Hb, Hs in H. discriminate H. }
  split.
  { intros tx Hb. apply IsCoinBase_inv in Hb as (i & Hi & Hnull & _). eauto. }
  split.
  { intros tx Hs.
    apply IsCoinStake_inv in Hs as (i & rest & _ & _ & Hi & Hnn & _). eauto. }
  split.
  { intros tx. unfold IsCoinBaseOrStake. pose proof (not_both tx) as H.
    destruct (IsCoinBase tx), (IsCoinStake tx); cbn in *; congruence. }
  intros tx. unfold IsCoinBaseOrStake. pose proof (not_both tx) as H.
  destruct (IsCoinBase tx), (IsCoinStake tx); cbn in *;
    intuition congruence.
Qed.

Lemma coinbase_and_coinstake_exclusive_witness :
  (IsCoinBase TxScenario.coinbase = true /\
   IsCoinStake TxScenario.coinbase = false /\
   IsCoinBaseOrStake TxScenario.coinbase = true) /\
  (IsCoinStake TxScenario.coinstake = true /\
   IsCoinBase TxScenario.coinstake = false /\
   IsCoinBaseOrStake TxScenario.coinstake = true) /\
  (exists i, vin TxScenario.coinbase = [i] /\
             COutPoint.IsNull (CTxIn.prevout i) = true) /\
  (exists i rest, vin TxScenario.coinstake = i :: rest /\
                  COutPoint.IsNull (CTxIn.prevout i) = false).
Proof.
  destruct coinbase_and_coinstake_exclusive
    as (_ & _ & Hbase & Hstake & _ & Hor).
  split; [|split; [|split]].
  - split; [reflexivity|]. split; [reflexivity|].
    apply Hor. left. split; reflexivity.
  - split; [reflexivity|]. split; [reflexivity|].
    apply Hor. right. split; reflexivity.
  - apply Hbase. reflexivity.
  - apply Hstake. reflexivity.
Defined.

End TxKind.


(** * Further properties of the transaction classes *)

(** ** The equality operators *)

Section Equality.

Lemma equal_refl {A : Type} (eq : A -> A -> bool) (u : list A) :
  (forall x, eq x x = true) -> equal eq u u = true.
Proof.
  intros Hrefl. induction u as [|x u IH]; cbn; [reflexivity|].
  now rewrite Hrefl, IH.
Qed.

Lemma vector_eq_true {A : Type} (eq : A -> A -> bool) (u v : list A) :
  (forall x y, eq x y = true <-> x = y) ->
  vector_eq eq u v = true <-> u = v.
Proof.
  intros Heq. unfold vector_eq. rewrite andb_true_iff, Nat.eqb_eq. split.
  - intros [Hlen He]. revert v Hlen He.
    induction u as [|x u IH]; intros [|y v]; cbn; try discriminate.
    + reflexivity.
    + intros Hlen He. apply andb_true_iff in He as [Hxy He].
      apply Heq in Hxy as ->. f_equal. apply IH; [lia | exact He].
  - intros ->. split; [reflexivity|].
    apply equal_refl. intros x. now apply Heq.
Qed.

Lemma bytes_eq_true (u v : bytes) : bytes_eq u v = true <-> u = v.
Proof.
  apply vector_eq_true. intros x y. split.
  - apply Byte.byte_dec_bl.
  - apply Byte.byte_dec_lb.
Qed.

Lemma outpoint_eq_true (a b : COutPoint.t) :
  COutPoint.operator_eq a b = true <-> a = b.
Proof.
  unfold COutPoint.operator_eq. rewrite andb_true_iff, !Z.eqb_eq.
  destruct a, b; cbn. split; [intros [-> ->]; reflexivity|].
  intros H; injection H; auto.
Qed.

Lemma txin_eq_true (a b : CTxIn.t) :
  CTxIn.operator_eq a b = true <-> a = b.
Proof.
  unfold CTxIn.operator_eq.
  rewrite !andb_true_iff, outpoint_eq_true, bytes_eq_true, Z.eqb_eq.
  destruct a, b; cbn. split; [intros [[-> ->] ->]; reflexivity|].
  intros H; injection H; auto.
Qed.

Lemma txout_eq_true (a b : CTxOut.t) :
  CTxOut.operator_eq a b = true <-> a = b.
Proof.
  unfold CTxOut.operator_eq. rewrite andb_true_iff, bytes_eq_true, Z.eqb_eq.
  destruct a, b; cbn. split; [intros [-> ->]; reflexivity|].
  intros H; injection H; auto.
Qed.

(** X1. On outpoints, inputs and outputs [==] holds exactly when every
    member of the two objects is equal, and [!=] is its negation. *)
Theorem member_equality_operators :
  (forall a b : COutPoint.t,
      (COutPoint.operator_eq a b = true <-> a = b) /\
      (COutPoint.operator_ne a b = true <-> a <> b)) /\
  (forall a b : CTxIn.t,
      (CTxIn.operator_eq a b = true <-> a = b) /\
      (CTxIn.operator_ne a b = true <-> a <> b)) /\
  (forall a b : CTxOut.t,
      (CTxOut.operator_eq a b = true <-> a = b) /\
      (CTxOut.operator_ne a b = true <-> a <> b)).
Proof.
  split; [|split]; intros a b.
  - pose proof (outpoint_eq_true a b) as H. split; [exact H|].
    unfold COutPoint.operator_ne. rewrite negb_true_iff, <- not_true_iff_false.
    now rewrite H.
  - pose proof (txin_eq_true a b) as H. split; [exact H|].
    unfold CTxIn.operator_ne. rewrite negb_true_iff, <- not_true_iff_false.
    now rewrite H.
  - pose proof (txout_eq_true a b) as H. split; [exact H|].
    unfold CTxOut.operator_ne. rewrite negb_true_iff, <- not_true_iff_false.
    now rewrite H.
Qed.

End Equality.

(** ** Outpoints *)

Section OutPoint.
Import COutPoint.

Implicit Types (a b c o : t).

(** X2. An outpoint is null exactly when it is the outpoint the default
    constructor builds, hash 0 and index 0xffffffff; [SetNull] makes any
    outpoint null. *)
Theorem outpoint_null_iff_default :
  (forall o, IsNull o = true <-> o = new) /\
  (forall o, IsNull (SetNull o) = true) /\
  (forall h k, IsNull (mk h k) = true <-> h = 0 /\ k = 4294967295) /\
  IsNull new = true.
Proof.
  assert (forall h k, IsNull (mk h k) = true <-> h = 0 /\ k = 4294967295) as H.
  { intros h k. unfold IsNull; cbn. rewrite andb_true_iff, !Z.eqb_eq.
    reflexivity. }
  split; [|split; [reflexivity|split; [exact H|reflexivity]]].
  intros [h k]. rewrite H. unfold new, SetNull. split.
  - intros [-> ->]. reflexivity.
  - intros Heq. injection Heq as -> ->. split; reflexivity.
Qed.




End OutPoint.

(** ** Outputs *)

Section TxOut.
Import CTxOut.

Implicit Types (o : t).

(** X4. An output is never both null and empty: [SetNull] makes it null
    and not empty, [SetEmpty] makes it empty and not null, and both clear the
    script.  Null looks at the value alone (-1), whatever the script; empty
    is the one output with value 0 and no script. *)
Theorem txout_null_and_empty_exclusive :
  (forall o, IsNull o && IsEmpty o = false) /\
  (forall o, IsNull (SetNull o) = true /\ IsEmpty (SetNull o) = false /\
             scriptPubKey (SetNull o) = []) /\
  (forall o, IsEmpty (SetEmpty o) = true /\ IsNull (SetEmpty o) = false /\
             scriptPubKey (SetEmpty o) = []) /\
  (forall v sc, IsNull (of_value v sc) = true <-> v = -1) /\
  (forall o, IsEmpty o = true <-> o = mk 0 []) /\
  (IsNull new = true /\ IsEmpty new = false).
Proof.
  split.
  { intros o. unfold IsNull, IsEmpty.
    destruct (Z.eqb_spec (nValue o) (-1)) as [->|]; reflexivity. }
  split; [intros o; repeat split|].
  split; [intros o; repeat split|].
  split; [intros v sc; unfold IsNull; cbn; apply Z.eqb_eq|].
  split; [|split; reflexivity].
  intros [v sc]. unfold IsEmpty; cbn.
  rewrite andb_true_iff, Z.eqb_eq. split.
  - intros [-> Hsc]. destruct sc; [reflexivity|discriminate].
  - intros H; injection H as -> ->. split; reflexivity.
Qed.

End TxOut.

(** ** Null transactions and default inputs *)

Section TxNull.
Import CBTCTransaction.

Implicit Types (tx : t).




(** X6. An input built by [CTxIn()] has a null prevout and is final, and
    the other constructors give a final input when the sequence argument is
    left at its default; so a transaction whose only input is [CTxIn()] is a
    coinbase as soon as it has an output, and is never a coinstake. *)
Theorem default_input_is_final_and_coinbase :
  (COutPoint.IsNull (CTxIn.prevout CTxIn.new) = true /\
   CTxIn.IsFinal CTxIn.new = true) /\
  (forall po sc, CTxIn.IsFinal (CTxIn.of_prevout po sc CTxIn.default_nSequenceIn) = true) /\
  (forall h k sc, CTxIn.IsFinal (CTxIn.of_hash h k sc CTxIn.default_nSequenceIn) = true) /\
  (forall i, CTxIn.IsFinal i = true <-> CTxIn.nSequence i = 4294967295) /\
  (forall v tm o outs lk d,
      IsCoinBase (mk v tm [CTxIn.new] (o :: outs) lk d) = true /\
      IsCoinStake (mk v tm [CTxIn.new] (o :: outs) lk d) = false) /\
  (forall v tm lk d, IsCoinBase (mk v tm [CTxIn.new] [] lk d) = false).
Proof.
  split; [split; reflexivity|].
  split; [reflexivity|]. split; [reflexivity|].
  split; [intros i; unfold CTxIn.IsFinal; apply Z.eqb_eq|].
  split; [intros; split; reflexivity | reflexivity].
Qed.

End TxNull.

(** ** Equality of transactions *)

Section TxEquality.
Import CBTCTransaction.

Implicit Types (a b c tx : t).

Lemma tx_eq_true a b :
  operator_eq a b = true <->
  nVersion a = nVersion b /\ vin a = vin b /\ vout a = vout b /\
  nLockTime a = nLockTime b.
Proof.
  unfold operator_eq.
  rewrite !andb_true_iff, !Z.eqb_eq,
    (vector_eq_true _ _ _ txin_eq_true), (vector_eq_true _ _ _ txout_eq_true).
  tauto.
Qed.

Lemma ctx_eq_true a b :
  CTransaction.operator_eq a b = true <->
  operator_eq a b = true /\ nTime a = nTime b.
Proof.
  rewrite tx_eq_true. unfold CTransaction.operator_eq.
  rewrite !andb_true_iff, !Z.eqb_eq,
    (vector_eq_true _ _ _ txin_eq_true), (vector_eq_true _ _ _ txout_eq_true).
  tauto.
Qed.

(** X7. [==] on [CBTCTransaction] compares the version, the inputs, the
    outputs and the lock time, and neither the time nor the
    denial-of-service counter: it is an equivalence, a transaction stays
    equal to itself across [DoS] calls, and two transactions reset at
    different times are equal. *)
Theorem tx_equality_ignores_time_and_dos :
  (forall a b,
      operator_eq a b = true <->
      nVersion a = nVersion b /\ vin a = vin b /\ vout a = vout b /\
      nLockTime a = nLockTime b) /\
  (forall a, operator_eq a a = true) /\
  (forall a b, operator_eq a b = operator_eq b a) /\
  (forall a b c,
      operator_eq a b = true -> operator_eq b c = true ->
      operator_eq a c = true) /\
  (forall tx n f, operator_eq (fst (DoS n f tx)) tx = true) /\
  (forall t1 t2 a b, operator_eq (SetNull t1 a) (SetNull t2 b) = true) /\
  (forall a b, operator_ne a b = negb (operator_eq a b)).
Proof.
  split; [exact tx_eq_true|].
  split; [intros a; apply tx_eq_true; auto|].
  split.
  { intros a b. apply eq_true_iff_eq. rewrite !tx_eq_true.
    split; intros (H1 & H2 & H3 & H4); auto. }
  split.
  { intros a b c. rewrite !tx_eq_true.
    intros (H1 & H2 & H3 & H4) (K1 & K2 & K3 & K4).
    repeat split; congruence. }
  split; [intros tx n f; apply tx_eq_true; cbn; auto|].
  split; [reflexivity|reflexivity].
Qed.

Lemma tx_equality_ignores_time_and_dos_witness :
  operator_eq (fst (DoS 10 true TxScenario.coinbase)) TxScenario.coinbase = true /\
  operator_eq TxScenario.coinbase (fst (DoS 10 true TxScenario.coinbase)) = true /\
  operator_eq (fst (DoS 10 true TxScenario.coinbase))
              (fst (DoS 20 true TxScenario.coinbase)) = true /\
  operator_eq TxScenario.coinbase TxScenario.coinstake = false.
Proof.
  destruct tx_equality_ignores_time_and_dos
    as (_ & _ & Hsym & Htrans & Hdos & _).
  pose proof (Hdos TxScenario.coinbase 10 true) as H1.
  pose proof (Hdos TxScenario.coinbase 20 true) as H2.
  split; [exact H1|].
  split; [rewrite Hsym; exact H1|].
  split; [|reflexivity].
  apply (Htrans _ TxScenario.coinbase _ H1). rewrite Hsym. exact H2.
Defined.

(** X8. [==] on [CTransaction] is [==] on [CBTCTransaction] together with
    equal times: it implies the base comparison, it still ignores the
    denial-of-service counter, and two transactions reset at times that
    differ modulo 2^32 are equal for the base class and different for the
    derived class. *)
Theorem ctransaction_equality_adds_time :
  (forall a b,
      CTransaction.operator_eq a b = true <->
      operator_eq a b = true /\ nTime a = nTime b) /\
  (forall a b, CTransaction.operator_eq a b = true -> operator_eq a b = true) /\
  (forall tx n f, CTransaction.operator_eq (fst (DoS n f tx)) tx = true) /\
  (forall t1 t2,
      to_uint t1 <> to_uint t2 ->
      operator_eq (CTransaction.new t1) (CTransaction.new t2) = true /\
      CTransaction.operator_eq (CTransaction.new t1) (CTransaction.new t2) = false).
Proof.
  split; [exact ctx_eq_true|].
  split; [intros a b H; now apply ctx_eq_true in H|].
  split.
  { intros tx n f. apply ctx_eq_true. split; [|reflexivity].
    apply tx_eq_true; cbn; auto. }
  intros t1 t2 Hne. split; [reflexivity|].
  apply not_true_iff_false. rewrite ctx_eq_true. intros [_ H]. exact (Hne H).
Qed.

Lemma ctransaction_equality_adds_time_witness :
  operator_eq (CTransaction.new 1700000000) (CTransaction.new 1700000001) = true /\
  CTransaction.operator_eq (CTransaction.new 1700000000)
                           (CTransaction.new 1700000001) = false /\
  CTransaction.operator_eq (CTransaction.new 5) (CTransaction.new (5 + 2 ^ 32)) = true.
Proof.
  destruct ctransaction_equality_adds_time as (_ & _ & _ & Hnew).
  destruct (Hnew 1700000000 1700000001 ltac:(discriminate)) as [H1 H2].
  split; [exact H1|]. split; [exact H2 | reflexivity].
Defined.

End TxEquality.

(** ** Charging the counter repeatedly *)

Section TxDoSCompose.
Import CBTCTransaction.

Implicit Types (tx : t) (n m : Z) (f g : bool).

Lemma to_int_add_l a m : to_int (to_int a + m) = to_int (a + m).
Proof.
  unfold to_int.
  replace ((a + 2 ^ 31) mod 2 ^ 32 - 2 ^ 31 + m + 2 ^ 31)
    with ((a + 2 ^ 31) mod 2 ^ 32 + m) by lia.
  rewrite Z.add_mod_idemp_l by lia.
  f_equal. f_equal. lia.
Qed.

(** X9. Two [DoS] calls leave the transaction one call with the sum of
    the two charges would leave, the counter being reduced to an [int] once;
    so the order of the charges does not matter, and a charge followed by
    its opposite restores a counter that was an [int]. *)
Theorem DoS_calls_add_up :
  (forall tx n m f g,
      fst (DoS m g (fst (DoS n f tx))) = fst (DoS (n + m) g tx)) /\
  (forall tx n m f g,
      fst (DoS m g (fst (DoS n f tx))) = fst (DoS n f (fst (DoS m g tx)))) /\
  (forall tx n f g,
      INT_MIN <= nDoS tx <= INT_MAX ->
      fst (DoS (- n) g (fst (DoS n f tx))) = tx).
Proof.
  assert (forall tx n m f g,
             fst (DoS m g (fst (DoS n f tx))) = fst (DoS (n + m) g tx)) as Hadd.
  { intros tx n m f g. cbn. f_equal.
    rewrite to_int_add_l. f_equal. lia. }
  split; [exact Hadd|]. split.
  - intros tx n m f g. rewrite (Hadd tx n m f g), (Hadd tx m n g f).
    cbn. f_equal. f_equal. lia.
  - intros tx n f g Hr. rewrite (Hadd tx n (- n) f g). cbn.
    replace (nDoS tx + (n + - n)) with (nDoS tx) by lia.
    rewrite to_int_in_range by exact Hr. now destruct tx.
Qed.

(** Past the largest [int] and back. *)
Lemma DoS_calls_add_up_witness :
  fst (DoS (-1) false (fst (DoS 1 true TxScenario.saturated)))
    = TxScenario.saturated /\
  nDoS (fst (DoS 1 true TxScenario.saturated)) = INT_MIN /\
  fst (DoS 100 true (fst (DoS 10 true TxScenario.fresh)))
    = fst (DoS 110 true TxScenario.fresh).
Proof.
  destruct DoS_calls_add_up as (Hadd & _ & Hback).
  split.
  - apply (Hback TxScenario.saturated 1 true false).
    cbn. unfold INT_MIN, INT_MAX. lia.
  - split; [reflexivity|]. apply (Hadd TxScenario.fresh 10 100 true true).
Defined.

End TxDoSCompose.

(** ** Replacement: [IsNewerThan] *)

Section TxNewer.
Import CBTCTransaction.

Implicit Types (tx old : t).

Lemma below_mono x y P : y <= x -> below x P -> below y P.
Proof. intros Hyx H s o Hin Hne. specialize (H s o Hin Hne). lia. Qed.

Lemma below_cons x s o P : below x ((s, o) :: P) <-> (s <> o -> x < s) /\ below x P.
Proof.
  unfold below. split.
  - intros H. split; [intros Hne; apply (H s o); [now left|exact Hne]|].
    intros s' o' Hin. apply H. now right.
  - intros [Hh Ht] s' o' [Heq|Hin] Hne.
    + injection Heq as <- <-. auto.
    + eauto.
Qed.

Lemma older_below_mono x y P : x <= y -> older_below x P -> older_below y P.
Proof.
  intros Hxy (s & o & Hin & Hne & Hlt & Hb). exists s, o.
  repeat split; try assumption. lia.
Qed.

Lemma older_below_split x y P : older_below x P -> older_below y P \/ below y P.
Proof.
  intros (s & o & Hin & Hne & Hlt & Hb).
  destruct (Z_lt_le_dec o y) as [Hoy|Hyo].
  - left. exists s, o. auto.
  - right. now apply (below_mono o).
Qed.

Lemma older_below_cons_eq x s P : older_below x ((s, s) :: P) <-> older_below x P.
Proof.
  unfold older_below. split.
  - intros (s' & o' & [Heq|Hin] & Hne & Hlt & Hb).
    + injection Heq as <- <-. congruence.
    + exists s', o'. apply below_cons in Hb. tauto.
  - intros (s' & o' & Hin & Hne & Hlt & Hb). exists s', o'.
    split; [now right|]. rewrite below_cons. tauto.
Qed.

Lemma older_below_cons_ne x s o P :
  s <> o ->
  older_below x ((s, o) :: P) <->
  (o < x /\ o < s /\ below o P) \/ older_below (Z.min x s) P.
Proof.
  intros Hne. unfold older_below. split.
  - intros (s' & o' & [Heq|Hin] & Hne' & Hlt & Hb); apply below_cons in Hb as [Hh Hb].
    + injection Heq as <- <-. left. auto.
    + right. exists s', o'. specialize (Hh Hne). repeat split; try assumption. lia.
  - intros [(H1 & H2 & H3)|(s' & o' & Hin & Hne' & Hlt & Hb)].
    + exists s, o. split; [now left|]. rewrite below_cons. auto.
    + exists s', o'. split; [now right|]. rewrite below_cons.
      repeat split; try assumption; lia.
Qed.

Lemma newer_pairs_inv P : forall f L,
  fst (fold_left pair_body P (f, L)) = true <->
  older_below L P \/ (f = true /\ below L P).
Proof.
  induction P as [|[s o] P IH]; intros f L.
  - cbn. split.
    + intros ->. right. split; [reflexivity|]. intros ? ? [].
    + intros [(s & o & [] & _)|[-> _]]. reflexivity.
  - cbn [fold_left]. unfold pair_body at 2, newer_body. cbn [fst snd].
    destruct (Z.eqb_spec s o) as [->|Hne]; cbn [negb].
    + rewrite IH, older_below_cons_eq, below_cons. tauto.
    + rewrite (older_below_cons_ne L s o P Hne), below_cons.
      destruct (Z.leb_spec s L) as [HsL|HsL]; cbn [snd].
      * rewrite Z.min_r by lia.
        destruct (Z.ltb_spec o s) as [Hos|Hos]; rewrite IH.
        -- split.
           ++ intros [H|[_ H]].
              ** left; right. apply (older_below_mono o); [lia|exact H].
              ** left; left. repeat split; [lia|lia|exact H].
           ++ intros [[(_ & _ & H)|H]|(_ & H & _)].
              ** right; auto.
              ** destruct (older_below_split s o P H); [left|right]; auto.
              ** specialize (H Hne); lia.
        -- split.
           ++ intros [H|[H _]]; [left; right; exact H|discriminate].
           ++ intros [[(_ & H & _)|H]|(_ & H & _)].
              ** lia.
              ** left; exact H.
              ** specialize (H Hne); lia.
      * rewrite Z.min_l by lia.
        destruct (Z.ltb_spec o L) as [Hos|Hos]; rewrite IH.
        -- split.
           ++ intros [H|[_ H]].
              ** left; right. apply (older_below_mono o); [lia|exact H].
              ** left; left. repeat split; [lia|lia|exact H].
           ++ intros [[(_ & _ & H)|H]|(_ & _ & H)].
              ** right; auto.
              ** destruct (older_below_split L o P H); [left|right]; auto.
              ** right. split; [reflexivity|]. apply (below_mono L); [lia|exact H].
        -- split.
           ++ intros [H|[H1 H2]]; [left; right; exact H|].
              right. repeat split; auto.
           ++ intros [[(H & _ & _)|H]|(H1 & _ & H2)].
              ** lia.
              ** left; exact H.
              ** right; auto.
Qed.

Lemma fold_left_seq_S {St : Type} (g : St -> nat -> St) n : forall k st,
  fold_left g (seq (S k) n) st = fold_left (fun st i => g st (S i)) (seq k n) st.
Proof.
  induction n as [|n IH]; intros k st; cbn; [reflexivity|].
  apply IH.
Qed.

Lemma In_seq_pairs (l1 l2 : list CTxIn.t) s o :
  In (s, o) (seq_pairs l1 l2) <->
  exists i a b, l1 !! i = Some a /\ l2 !! i = Some b /\
                CTxIn.nSequence a = s /\ CTxIn.nSequence b = o.
Proof.
  revert l2. induction l1 as [|a l1 IH]; intros [|b l2]; cbn.
  - split; [intros []|intros (i & a & b & H & _); discriminate].
  - split; [intros []|intros (i & a & b' & H & _); discriminate].
  - split; [intros []|intros (i & a' & b & _ & H & _); destruct i; discriminate].
  - rewrite IH. split.
    + intros [Heq|(i & a' & b' & H)].
      * injection Heq as <- <-. exists 0%nat, a, b. auto.
      * exists (S i), a', b'. exact H.
    + intros ([|i] & a' & b' & H1 & H2 & H3 & H4); cbn in H1, H2.
      * left. congruence.
      * right. exists i, a', b'. auto.
Qed.

Lemma newer_step_lockstep (tx old : t) :
  forall st,
  length (vin tx) = length (vin old) ->
  fold_left (newer_step tx old) (seq 0 (length (vin tx))) st
  = fold_left pair_body (seq_pairs (vin tx) (vin old)) st.
Proof.
  unfold newer_step. generalize (vin tx) (vin old). clear tx old.
  induction l as [|a l1 IH]; intros [|b l2] st Hlen; try discriminate; [reflexivity|].
  cbn [length seq fold_left seq_pairs]. rewrite fold_left_seq_S.
  cbn. injection Hlen as Hlen. apply (IH l2 _ Hlen).
Qed.

Lemma prevout_loop_false (tx old : t) :
  existsb (prevout_differs tx old) (seq 0 (length (vin tx))) = false <->
  forall i a b, vin tx !! i = Some a -> vin old !! i = Some b ->
                CTxIn.prevout a = CTxIn.prevout b.
Proof.
  rewrite <- not_true_iff_false, existsb_exists. split.
  - intros H i a b Ha Hb.
    destruct (COutPoint.operator_eq (CTxIn.prevout a) (CTxIn.prevout b)) eqn:He.
    + now apply outpoint_eq_true.
    + exfalso. apply H. exists i. split.
      * apply in_seq. apply lookup_lt_Some in Ha. lia.
      * unfold prevout_differs, COutPoint.operator_ne. now rewrite Ha, Hb, He.
  - intros H (i & _ & Hd). unfold prevout_differs in Hd.
    destruct (vin tx !! i) as [a|] eqn:Ha; [|discriminate].
    destruct (vin old !! i) as [b|] eqn:Hb; [|discriminate].
    unfold COutPoint.operator_ne in Hd. apply negb_true_iff in Hd.
    apply not_true_iff_false in Hd. apply Hd, outpoint_eq_true. eauto.
Qed.

(** What a true result of [IsNewerThan] tells. *)
Lemma IsNewerThan_true tx old :
  IsNewerThan tx old = true ->
  length (vin tx) = length (vin old) /\
  (forall i a b, vin tx !! i = Some a -> vin old !! i = Some b ->
                 CTxIn.prevout a = CTxIn.prevout b) /\
  exists i a b,
    vin tx !! i = Some a /\ vin old !! i = Some b /\
    CTxIn.nSequence a <> CTxIn.nSequence b /\
    forall j a' b',
      vin tx !! j = Some a' -> vin old !! j = Some b' ->
      CTxIn.nSequence a' <> CTxIn.nSequence b' ->
      CTxIn.nSequence b < CTxIn.nSequence a'.
Proof.
  unfold IsNewerThan.
  destruct (Nat.eqb_spec (length (vin tx)) (length (vin old))) as [Hlen|Hlen];
    cbn [negb]; [|discriminate].
  destruct (existsb _ _) eqn:Hp; [discriminate|].
  pose proof (proj1 (prevout_loop_false tx old) Hp) as Hp'.
  rewrite (newer_step_lockstep tx old _ Hlen), newer_pairs_inv.
  intros [(s & o & Hin & Hne & Hlt & Hb)|[H _]]; [|discriminate].
  split; [exact Hlen|]. split; [exact Hp'|].
  apply In_seq_pairs in Hin as (i & a & b & Ha & Hb' & <- & <-).
  exists i, a, b. repeat split; try assumption.
  intros j a' b' Ha' Hb'' Hne'.
  apply (Hb _ (CTxIn.nSequence b')); [|exact Hne'].
  apply In_seq_pairs. eauto 10.
Qed.

Lemma IsNewerThan_iff_old_has_lowest_sequence_aux :
  forall tx old,
    seqs_in_range tx ->
    IsNewerThan tx old = true <->
    length (vin tx) = length (vin old) /\
    (forall i a b, vin tx !! i = Some a -> vin old !! i = Some b ->
                   CTxIn.prevout a = CTxIn.prevout b) /\
    exists i a b,
      vin tx !! i = Some a /\ vin old !! i = Some b /\
      CTxIn.nSequence a <> CTxIn.nSequence b /\
      forall j a' b',
        vin tx !! j = Some a' -> vin old !! j = Some b' ->
        CTxIn.nSequence a' <> CTxIn.nSequence b' ->
        CTxIn.nSequence b < CTxIn.nSequence a'.
Proof.
  intros tx old Hr. split; [apply IsNewerThan_true|].
  intros (Hlen & Hpre & i & a & b & Ha & Hb & Hne & Hall).
  unfold IsNewerThan.
  destruct (Nat.eqb_spec (length (vin tx)) (length (vin old))) as [_|Hn];
    cbn [negb]; [|contradiction].
  rewrite (proj2 (prevout_loop_false tx old) Hpre).
  rewrite (newer_step_lockstep tx old _ Hlen), newer_pairs_inv. left.
  exists (CTxIn.nSequence a), (CTxIn.nSequence b).
  split; [apply In_seq_pairs; eauto 10|]. split; [exact Hne|].
  split.
  - specialize (Hall i a b Ha Hb Hne).
    pose proof (Forall_lookup_1 _ _ _ _ Hr Ha) as Hra. cbn in Hra. lia.
  - intros s o Hin Hne'.
    apply In_seq_pairs in Hin as (j & a' & b' & Ha' & Hb' & <- & <-).
    eauto.
Qed.

(** X10. With sequence numbers that are [unsigned int] values,
    [tx.IsNewerThan(old)] holds exactly when the two have as many inputs,
    the same prevout at every index, and at some index where the sequence
    numbers differ [old] has a sequence number lower than every sequence
    number of [tx] at the indices where they differ. *)
Theorem IsNewerThan_iff_old_has_lowest_sequence :
  forall tx old,
    seqs_in_range tx ->
    IsNewerThan tx old = true <->
    length (vin tx) = length (vin old) /\
    (forall i a b, vin tx !! i = Some a -> vin old !! i = Some b ->
                   CTxIn.prevout a = CTxIn.prevout b) /\
    exists i a b,
      vin tx !! i = Some a /\ vin old !! i = Some b /\
      CTxIn.nSequence a <> CTxIn.nSequence b /\
      forall j a' b',
        vin tx !! j = Some a' -> vin old !! j = Some b' ->
        CTxIn.nSequence a' <> CTxIn.nSequence b' ->
        CTxIn.nSequence b < CTxIn.nSequence a'.
Proof. exact IsNewerThan_iff_old_has_lowest_sequence_aux. Qed.

(** [draft1] (sequences 5, 7) against [draft2] (5, 3): the inputs differ
    at index 1, where the old draft has 3, lower than 7. *)
Lemma IsNewerThan_iff_old_has_lowest_sequence_witness :
  seqs_in_range ReplaceScenario.draft1 /\
  IsNewerThan ReplaceScenario.draft1 ReplaceScenario.draft2 = true.
Proof.
  assert (seqs_in_range ReplaceScenario.draft1) as Hr.
  { repeat constructor; cbn; unfold UINT_MAX; lia. }
  split; [exact Hr|].
  apply (IsNewerThan_iff_old_has_lowest_sequence _ _ Hr).
  split; [reflexivity|]. split.
  - intros [|[|i]] a b Ha Hb; cbn in Ha, Hb; try discriminate;
      injection Ha as <-; injection Hb as <-; reflexivity.
  - exists 1%nat, (CTxIn.of_prevout ReplaceScenario.out2 [Byte.x52] 7),
      (CTxIn.of_prevout ReplaceScenario.out2 [Byte.x52] 3).
    split; [reflexivity|]. split; [reflexivity|]. split; [discriminate|].
    intros [|[|j]] a' b' Ha Hb Hne; cbn in Ha, Hb; try discriminate;
      injection Ha as <-; injection Hb as <-; cbn in *; [congruence|lia].
Defined.

(** X11. [IsNewerThan] is irreflexive and asymmetric, a transaction is
    never newer than one it is equal to, and the result is false as soon as
    the numbers of inputs differ or the sequence numbers agree at every
    index. *)
Theorem IsNewerThan_irreflexive_asymmetric :
  (forall tx, IsNewerThan tx tx = false) /\
  (forall tx old, IsNewerThan tx old = true -> IsNewerThan old tx = false) /\
  (forall tx old, operator_eq tx old = true -> IsNewerThan tx old = false) /\
  (forall tx old,
      length (vin tx) <> length (vin old) -> IsNewerThan tx old = false) /\
  (forall tx old,
      (forall i a b, vin tx !! i = Some a -> vin old !! i = Some b ->
                     CTxIn.nSequence a = CTxIn.nSequence b) ->
      IsNewerThan tx old = false).
Proof.
  assert (forall tx old,
             (forall i a b, vin tx !! i = Some a -> vin old !! i = Some b ->
                            CTxIn.nSequence a = CTxIn.nSequence b) ->
             IsNewerThan tx old = false) as Hsame.
  { intros tx old Hall. apply not_true_iff_false. intros H.
    apply IsNewerThan_true in H as (_ & _ & i & a & b & Ha & Hb & Hne & _).
    apply Hne. eauto. }
  split.
  { intros tx. apply Hsame. intros i a b Ha Hb. congruence. }
  split.
  { intros tx old H. apply not_true_iff_false. intros H'.
    apply IsNewerThan_true in H as (_ & _ & i & a & b & Ha & Hb & Hne & Hall).
    apply IsNewerThan_true in H' as (_ & _ & k & b' & a' & Hb' & Ha' & Hne' & Hall').
    pose proof (Hall k a' b' Ha' Hb' ltac:(congruence)).
    pose proof (Hall' i b a Hb Ha ltac:(congruence)).
    pose proof (Hall i a b Ha Hb Hne).
    pose proof (Hall' k b' a' Hb' Ha' Hne').
    lia. }
  split.
  { intros tx old He. apply tx_eq_true in He as (_ & Hin & _).
    apply Hsame. intros i a b Ha Hb. rewrite Hin in Ha. congruence. }
  split; [|exact Hsame].
  intros tx old Hlen. apply not_true_iff_false. intros H.
  apply IsNewerThan_true in H as (Hl & _). contradiction.
Qed.

Lemma IsNewerThan_irreflexive_asymmetric_witness :
  IsNewerThan ReplaceScenario.draft1 ReplaceScenario.draft2 = true /\
  IsNewerThan ReplaceScenario.draft2 ReplaceScenario.draft1 = false /\
  IsNewerThan ReplaceScenario.draft1 TxScenario.coinbase = false /\
  IsNewerThan ReplaceScenario.draft1
    (fst (DoS 10 true ReplaceScenario.draft1)) = false.
Proof.
  destruct IsNewerThan_irreflexive_asymmetric
    as (_ & Hasym & Heq & Hlen & _).
  assert (IsNewerThan ReplaceScenario.draft1 ReplaceScenario.draft2 = true)
    as H by reflexivity.
  split; [exact H|]. split; [exact (Hasym _ _ H)|].
  split; [apply Hlen; cbn; lia|].
  apply Heq. reflexivity.
Defined.

(** X12. Final inputs and replacement: no transaction is newer than one
    whose inputs are all final, and a transaction whose inputs are all
    final is newer than [old] exactly when [old] has as many inputs, the
    same prevouts and an input that is not final. *)
Theorem final_transaction_replaces_drafts :
  (forall tx old,
      seqs_in_range tx -> all_final old -> IsNewerThan tx old = false) /\
  (forall tx old,
      all_final tx -> seqs_in_range old ->
      IsNewerThan tx old = true <->
      length (vin tx) = length (vin old) /\
      (forall i a b, vin tx !! i = Some a -> vin old !! i = Some b ->
                     CTxIn.prevout a = CTxIn.prevout b) /\
      exists i b, vin old !! i = Some b /\ CTxIn.IsFinal b = false).
Proof.
  split.
  - intros tx old Hr Hfin. apply not_true_iff_false. intros H.
    apply IsNewerThan_true in H as (_ & _ & i & a & b & Ha & Hb & Hne & Hall).
    pose proof (Hall i a b Ha Hb Hne) as Hlt.
    pose proof (Forall_lookup_1 _ _ _ _ Hr Ha) as Hra.
    pose proof (Forall_lookup_1 _ _ _ _ Hfin Hb) as Hfb.
    cbn in Hra, Hfb. unfold CTxIn.IsFinal in Hfb. apply Z.eqb_eq in Hfb. lia.
  - intros tx old Hfin Hr.
    assert (forall i a, vin tx !! i = Some a -> CTxIn.nSequence a = UINT_MAX)
      as Hmax.
    { intros i a Ha. pose proof (Forall_lookup_1 _ _ _ _ Hfin Ha) as Hfa.
      cbn in Hfa. unfold CTxIn.IsFinal in Hfa. now apply Z.eqb_eq in Hfa. }
    assert (seqs_in_range tx) as Hrt.
    { apply Forall_lookup_2. intros i a Ha. rewrite (Hmax i a Ha).
      unfold UINT_MAX. lia. }
    rewrite (IsNewerThan_iff_old_has_lowest_sequence_aux tx old Hrt).
    split.
    + intros (Hlen & Hpre & i & a & b & Ha & Hb & Hne & _).
      split; [exact Hlen|]. split; [exact Hpre|].
      exists i, b. split; [exact Hb|].
      unfold CTxIn.IsFinal. apply Z.eqb_neq. rewrite <- (Hmax i a Ha). congruence.
    + intros (Hlen & Hpre & i & b & Hb & Hnf).
      split; [exact Hlen|]. split; [exact Hpre|].
      destruct (vin tx !! i) as [a|] eqn:Ha.
      2:{ apply lookup_ge_None in Ha. apply lookup_lt_Some in Hb. lia. }
      unfold CTxIn.IsFinal in Hnf. apply Z.eqb_neq in Hnf.
      exists i, a, b. split; [exact Ha|]. split; [exact Hb|].
      rewrite (Hmax i a Ha). split; [congruence|].
      intros j a' b' Ha' _ _. rewrite (Hmax j a' Ha').
      pose proof (Forall_lookup_1 _ _ _ _ Hr Hb) as Hrb. cbn in Hrb. lia.
Qed.

Lemma final_transaction_replaces_drafts_witness :
  IsNewerThan ReplaceScenario.final ReplaceScenario.draft1 = true /\
  IsNewerThan ReplaceScenario.draft1 ReplaceScenario.final = false.
Proof.
  destruct final_transaction_replaces_drafts as (Hnone & Hfin).
  assert (seqs_in_range ReplaceScenario.draft1) as Hr
    by (repeat constructor; cbn; unfold UINT_MAX; lia).
  assert (all_final ReplaceScenario.final) as Hf
    by (repeat constructor).
  split; [|exact (Hnone _ _ Hr Hf)].
  apply (Hfin _ _ Hf Hr).
  split; [reflexivity|]. split.
  - intros [|[|i]] a b Ha Hb; cbn in Ha, Hb; try discriminate;
      injection Ha as <-; injection Hb as <-; reflexivity.
  - exists 0%nat, (CTxIn.of_prevout ReplaceScenario.out1 [Byte.x51] 5).
    split; reflexivity.
Defined.

End TxNewer.

(** ** Equal transactions behave alike *)

Section TxCongruence.
Import CBTCTransaction.

Implicit Types (a b old : t).

(** X19. Transactions that are [==] are alike for every predicate of the
    class: both or neither are null, coinbase, coinstake, and newer than,
    or older than, any third transaction; in particular no [DoS] call
    changes what a transaction is. *)
Theorem equal_transactions_behave_alike :
  (forall a b,
      operator_eq a b = true ->
      IsNull a = IsNull b /\
      IsCoinBase a = IsCoinBase b /\
      IsCoinStake a = IsCoinStake b /\
      IsCoinBaseOrStake a = IsCoinBaseOrStake b /\
      (forall old, IsNewerThan a old = IsNewerThan b old) /\
      (forall new, IsNewerThan new a = IsNewerThan new b)) /\
  (forall a n f,
      IsCoinBase (fst (DoS n f a)) = IsCoinBase a /\
      IsCoinStake (fst (DoS n f a)) = IsCoinStake a /\
      IsNull (fst (DoS n f a)) = IsNull a).
Proof.
  split; [|intros a n f; repeat split].
  intros a b He. apply tx_eq_true in He as (_ & Hin & Hout & _).
  destruct a as [v1 t1 i1 o1 l1 d1], b as [v2 t2 i2 o2 l2 d2].
  cbn in Hin, Hout. subst i2 o2. repeat split.
Qed.

Lemma equal_transactions_behave_alike_witness :
  IsCoinBase (fst (DoS 10 true TxScenario.coinbase)) = true /\
  IsNewerThan (fst (DoS 10 true ReplaceScenario.draft1)) ReplaceScenario.draft2
    = IsNewerThan ReplaceScenario.draft1 ReplaceScenario.draft2.
Proof.
  destruct equal_transactions_behave_alike as (Heq & Hdos).
  split.
  - destruct (Hdos TxScenario.coinbase 10 true) as (-> & _). reflexivity.
  - destruct (Heq (fst (DoS 10 true ReplaceScenario.draft1))
                  ReplaceScenario.draft1 eq_refl)
      as (_ & _ & _ & _ & Hnew & _).
    apply Hnew.
Defined.

End TxCongruence.

(** * Further properties of the descriptor and the member *)

Section DescrFrame.
Import XBridgeTransactionDescr.

Implicit Types (w : World) (p q r : addr) (a b c : t).

(** X13. An assignment touches the assigned descriptor only: every other
    object, the source among them, is as before, no object appears or
    disappears, and the clock shows the same readings. *)
Theorem assignment_changes_only_its_target :
  forall w p q a b w',
    objs w !! p = Some a ->
    objs w !! q = Some b ->
    operator_assign p q w = Some (p, w') ->
    (forall r, r <> p -> objs w' !! r = objs w !! r) /\
    objs w' !! q = Some b /\
    dom (objs w') = dom (objs w) /\
    clock w' = clock w.
Proof.
  intros w p q a b w' Hp Hq Hrun.
  destruct (decide (p = q)) as [->|Hne].
  - rewrite operator_assign_self in Hrun. injection Hrun as <-.
    repeat split; auto.
  - rewrite (operator_assign_run w p q a b Hne Hp Hq) in Hrun.
    injection Hrun as <-. cbn.
    split; [intros r Hr; now apply lookup_insert_ne|].
    split; [rewrite lookup_insert_ne; [exact Hq | exact Hne]|].
    split; [|reflexivity].
    rewrite dom_insert_L.
    apply subseteq_union_1_L, singleton_subseteq_l, elem_of_dom. eauto.
Qed.

Lemma assignment_changes_only_its_target_witness :
  exists w',
    operator_assign 1%positive 2%positive MergeScenario.world
      = Some (1%positive, w') /\
    objs w' !! 2%positive = Some Scenario.descrA' /\
    objs w' !! 3%positive = Some Scenario.laterA /\
    objs w' !! 4%positive = None.
Proof.
  pose proof (operator_assign_run MergeScenario.world 1%positive 2%positive
                Scenario.descrA Scenario.descrA'
                ltac:(discriminate) eq_refl eq_refl) as Hrun.
  destruct (assignment_changes_only_its_target
              MergeScenario.world 1%positive 2%positive
              Scenario.descrA Scenario.descrA' _ eq_refl eq_refl Hrun)
    as (Hframe & Hsrc & _).
  eexists. split; [exact Hrun|].
  split; [exact Hsrc|].
  split; [exact (Hframe 3%positive ltac:(discriminate))
         | exact (Hframe 4%positive ltac:(discriminate))].
Defined.

(** X14. Two merges in a row, from [q] and then from [r], succeed and
    leave the earliest of the three [created] values, the fields of the
    last incoming copy, the second clock reading in [txtime] and the
    packet the descriptor had; merging in the other order leaves the same
    [created]. *)
Theorem successive_merges_keep_earliest_created :
  forall w p q r a b c,
    p <> q -> p <> r ->
    objs w !! p = Some a ->
    objs w !! q = Some b ->
    objs w !! r = Some c ->
    exists w1 a1 w2 a2,
      (operator_assign p q ;; operator_assign p r) w = Some (p, w1) /\
      objs w1 !! p = Some a1 /\
      created a1 = Z.min (created a) (Z.min (created b) (created c)) /\
      takes_incoming a1 c /\
      txtime a1 = clock w (Datatypes.S (reads w)) /\
      packet a1 = packet a /\
      reads w1 = Datatypes.S (Datatypes.S (reads w)) /\
      (operator_assign p r ;; operator_assign p q) w = Some (p, w2) /\
      objs w2 !! p = Some a2 /\
      created a2 = created a1.
Proof.
  intros w p q r a b c Hpq Hpr Hp Hq Hr.
  assert (forall q r b c,
             p <> q -> p <> r ->
             objs w !! q = Some b -> objs w !! r = Some c ->
             (operator_assign p q ;; operator_assign p r) w
             = Some (p, mkWorld
                          (<[p := copyFrom_fields
                                    (clock w (Datatypes.S (reads w)))
                                    (copyFrom_fields (clock w (reads w)) a b) c]>
                             (<[p := copyFrom_fields (clock w (reads w)) a b]>
                                (objs w)))
                          (clock w) (Datatypes.S (Datatypes.S (reads w)))))
    as Hseq.
  { intros q0 r0 b0 c0 Hpq0 Hpr0 Hq0 Hr0.
    unfold mbind at 1, M_bind at 1.
    rewrite (operator_assign_run w p q0 a b0 Hpq0 Hp Hq0).
    erewrite operator_assign_run; [reflexivity|exact Hpr0| |].
    - cbn. apply lookup_insert_eq.
    - cbn. rewrite lookup_insert_ne; assumption. }
  eexists; eexists; eexists; eexists.
  split; [exact (Hseq q r b c Hpq Hpr Hq Hr)|].
  cbn [objs reads]. rewrite lookup_insert_eq. split; [reflexivity|].
  split; [rewrite !copyFrom_fields_created; lia|].
  split; [apply copyFrom_fields_takes_incoming|].
  split; [reflexivity|]. split; [reflexivity|]. split; [reflexivity|].
  split; [exact (Hseq r q c b Hpr Hpq Hr Hq)|].
  cbn [objs]. rewrite lookup_insert_eq. split; [reflexivity|].
  rewrite !copyFrom_fields_created. lia.
Qed.

(** A merged with A' (first seen at [T0 - 5]) and then with a later offer
    (first seen at [T0 + 5]) is still first seen at [T0 - 5]. *)
Lemma successive_merges_keep_earliest_created_witness :
  exists w1 a1,
    (operator_assign 1%positive 2%positive ;; operator_assign 1%positive 3%positive)
      MergeScenario.world = Some (1%positive, w1) /\
    objs w1 !! 1%positive = Some a1 /\
    created a1 = Scenario.T0 - 5 /\
    id a1 = 44 /\
    txtime a1 = Scenario.T0 + 31.
Proof.
  destruct (successive_merges_keep_earliest_created
              MergeScenario.world 1%positive 2%positive 3%positive
              Scenario.descrA Scenario.descrA' Scenario.laterA
              ltac:(discriminate) ltac:(discriminate)
              eq_refl eq_refl eq_refl)
    as (w1 & a1 & _ & _ & Hrun & Hget & Hc & Hin & Ht & _).
  exists w1, a1. split; [exact Hrun|]. split; [exact Hget|].
  split; [exact Hc|]. split; [exact (proj1 Hin) | exact Ht].
Defined.

(** X15. The copy constructor, given a live original at another address,
    succeeds after three clock readings: the copy has the fields of the
    original, a null packet pointer, and in [created] the earlier of the
    first reading and the original's [created], so it is never ordered
    after the original; the original is untouched. *)
Theorem copy_is_never_younger_than_original :
  forall w p q b amt1 amt2,
    p <> q ->
    objs w !! q = Some b ->
    exists w' a',
      copy_construct p q amt1 amt2 w = Some (tt, w') /\
      objs w' !! p = Some a' /\
      takes_incoming a' b /\
      created a' = Z.min (clock w (reads w)) (created b) /\
      lt b a' = false /\
      txtime a' = clock w (Datatypes.S (Datatypes.S (reads w))) /\
      packet a' = None /\
      objs w' !! q = Some b /\
      reads w' = Datatypes.S (Datatypes.S (Datatypes.S (reads w))).
Proof.
  intros w p q b amt1 amt2 Hne Hq.
  set (o := default_init amt1 amt2 trNew (clock w (reads w))
                         (clock w (Datatypes.S (reads w)))).
  set (w1 := mkWorld (<[p := o]> (objs w)) (clock w)
                     (Datatypes.S (Datatypes.S (reads w)))).
  assert (objs w1 !! p = Some o) as Hp1 by apply lookup_insert_eq.
  assert (objs w1 !! q = Some b) as Hq1
    by (cbn; rewrite lookup_insert_ne; assumption).
  pose proof (copyFrom_run w1 p q o b Hp1 Hq1) as Hrun.
  eexists; eexists. split; [exact Hrun|].
  cbn [objs reads]. rewrite lookup_insert_eq. split; [reflexivity|].
  split; [apply copyFrom_fields_takes_incoming|].
  split; [apply copyFrom_fields_created|].
  split.
  { apply lt_false_created. rewrite copyFrom_fields_created. cbn. lia. }
  split; [reflexivity|]. split; [reflexivity|].
  split; [|reflexivity].
  rewrite lookup_insert_ne by exact Hne. exact Hq1.
Qed.

(** A copy of A' made when the clock reads [T0 + 30]. *)
Lemma copy_is_never_younger_than_original_witness :
  exists w' a',
    copy_construct 5%positive 2%positive 0 0 MergeScenario.world = Some (tt, w') /\
    objs w' !! 5%positive = Some a' /\
    created a' = Scenario.T0 - 5 /\
    state a' = trAccepting /\
    txtime a' = Scenario.T0 + 32 /\
    packet a' = None.
Proof.
  destruct (copy_is_never_younger_than_original
              MergeScenario.world 5%positive 2%positive Scenario.descrA' 0 0
              ltac:(discriminate) eq_refl)
    as (w' & a' & Hrun & Hget & Hin & Hc & _ & Ht & Hpk & _).
  destruct Hin as (_ & _ & _ & _ & _ & _ & _ & _ & _ & Hst & _).
  exists w', a'. split; [exact Hrun|]. split; [exact Hget|].
  split; [exact Hc|]. split; [exact Hst|].
  split; [exact Ht | exact Hpk].
Defined.

(** X16. A merge never moves a descriptor later in the order: the merged
    descriptor is ordered after neither the descriptor it replaces nor the
    incoming copy, and it is ordered before the one it replaces exactly
    when the incoming copy was. *)
Theorem merge_never_moves_later :
  forall w p q a b,
    p <> q ->
    objs w !! p = Some a ->
    objs w !! q = Some b ->
    exists w' a',
      operator_assign p q w = Some (p, w') /\
      objs w' !! p = Some a' /\
      lt a a' = false /\
      lt b a' = false /\
      gt a' a = false /\
      (lt a' a = true <-> lt b a = true) /\
      (lt a' b = true <-> lt a b = true).
Proof.
  intros w p q a b Hne Hp Hq. eexists; eexists.
  split; [apply (operator_assign_run w p q a b Hne Hp Hq)|].
  cbn [objs]. rewrite lookup_insert_eq. split; [reflexivity|].
  pose proof (copyFrom_fields_created (clock w (reads w)) a b) as Hc.
  rewrite !lt_false_created, !lt_created, Hc.
  split; [lia|]. split; [lia|].
  split; [|lia].
  apply not_true_iff_false. rewrite gt_created, Hc. lia.
Qed.

Lemma merge_never_moves_later_witness :
  exists w' a',
    operator_assign 1%positive 2%positive MergeScenario.world = Some (1%positive, w') /\
    objs w' !! 1%positive = Some a' /\
    lt Scenario.descrA a' = false /\
    lt a' Scenario.descrA = true.
Proof.
  destruct (merge_never_moves_later
              MergeScenario.world 1%positive 2%positive
              Scenario.descrA Scenario.descrA'
              ltac:(discriminate) eq_refl eq_refl)
    as (w' & a' & Hrun & Hget & H1 & _ & _ & H2 & _).
  exists w', a'. split; [exact Hrun|]. split; [exact Hget|].
  split; [exact H1|]. apply H2. reflexivity.
Defined.

End DescrFrame.

Section MemberSetters.
Import XBridgeTransactionMember.

Implicit Types (m : t) (s d : bytes).

(** X17. The setters of a member overwrite: the last address set is the
    one read back, setting the source and setting the destination commute,
    neither changes the id, and setting an address to its current value
    changes nothing. *)
Theorem member_setters_overwrite_and_commute :
  (forall m s1 s2, setSource s2 (setSource s1 m) = setSource s2 m) /\
  (forall m d1 d2, setDest d2 (setDest d1 m) = setDest d2 m) /\
  (forall m s d, setSource s (setDest d m) = setDest d (setSource s m)) /\
  (forall m s d, id (setSource s m) = id m /\ id (setDest d m) = id m) /\
  (forall m, setSource (source m) m = m /\ setDest (dest m) m = m) /\
  (forall i s d,
      source (setDest d (setSource s (new_id i))) = s /\
      dest (setDest d (setSource s (new_id i))) = d /\
      id (setDest d (setSource s (new_id i))) = i).
Proof.
  split; [reflexivity|]. split; [reflexivity|]. split; [reflexivity|].
  split; [intros; split; reflexivity|].
  split; [intros []; split; reflexivity|].
  intros; repeat split.
Qed.

End MemberSetters.

(** * The SHA-1 based digest *)

Section Sha1.
Import Cryptopop.

Lemma complement_involutive (b : Byte.byte) : complement (complement b) = b.
Proof.
  unfold complement.
  rewrite <- (Byte.of_bits_to_bits b) at 2.
  destruct (Byte.to_bits b) as (b0 & b1 & b2 & b3 & b4 & b5 & b6 & b7).
  rewrite Byte.to_bits_of_bits.
  now rewrite !negb_involutive.
Qed.

Lemma complement_value (b : Byte.byte) :
  Byte.to_N (complement b) = (255 - Byte.to_N b)%N.
Proof. destruct b; reflexivity. Qed.

Lemma map_complement_involutive (x : bytes) :
  map complement (map complement x) = x.
Proof.
  induction x as [|b x IH]; cbn; [reflexivity|].
  now rewrite complement_involutive, IH.
Qed.

(** X18. Complementing a byte turns its value [v] into [255 - v] and is
    an involution, so for an input that fits [inputStr] the digest of the
    complemented input is computed from the same two 20-byte SHA-1 digests
    as the digest of the input, in the opposite order. *)
Theorem sha1_digest_of_complement_swaps_halves :
  forall (SHA1 : bytes -> bytes) (reduce_bit : bytes -> nat -> nat -> bytes)
         (INPUT_LEN : nat) (input : bytes),
    (forall x, length (SHA1 x) = SHA_DIGEST_LENGTH) ->
    (length input <= INPUT_LEN)%nat ->
    (forall b, Byte.to_N (complement b) = (255 - Byte.to_N b)%N) /\
    exists d1 d2 : bytes,
      length d1 = 20%nat /\ length d2 = 20%nat /\
      d1 = SHA1 input /\
      cryptopop_sha1 SHA1 reduce_bit INPUT_LEN input
        = Some (reduce_bit (d1 ++ d2) 40%nat 256%nat) /\
      cryptopop_sha1 SHA1 reduce_bit INPUT_LEN (map complement input)
        = Some (reduce_bit (d2 ++ d1) 40%nat 256%nat).
Proof.
  intros SHA1 reduce_bit INPUT_LEN input Hlen Hfit.
  split; [exact complement_value|].
  exists (SHA1 input), (SHA1 (map complement input)).
  split; [apply Hlen|]. split; [apply Hlen|]. split; [reflexivity|].
  unfold cryptopop_sha1, sha1_result. rewrite length_map.
  destruct (Nat.leb_spec (length input) INPUT_LEN) as [_|Hgt]; [|lia].
  rewrite map_complement_involutive. split; reflexivity.
Qed.

Lemma sha1_digest_of_complement_swaps_halves_witness :
  cryptopop_sha1 prefix20 prefix_bits 64 [Byte.x01; Byte.xf0]
    = Some ([Byte.x01; Byte.xf0] ++ repeat Byte.x00 18
            ++ [Byte.xfe; Byte.x0f] ++ repeat Byte.x00 10) /\
  exists d1 d2 : bytes,
    cryptopop_sha1 prefix20 prefix_bits 64 [Byte.x01; Byte.xf0]
      = Some (prefix_bits (d1 ++ d2) 40 256) /\
    cryptopop_sha1 prefix20 prefix_bits 64 [Byte.xfe; Byte.x0f]
      = Some (prefix_bits (d2 ++ d1) 40 256).
Proof.
  split; [reflexivity|].
  destruct (sha1_digest_of_complement_swaps_halves
              prefix20 prefix_bits 64%nat [Byte.x01; Byte.xf0])
    as (_ & d1 & d2 & _ & _ & _ & H1 & H2).
  - intros x. unfold prefix20, SHA_DIGEST_LENGTH.
    rewrite length_firstn, length_app, repeat_length. lia.
  - cbn. lia.
  - exists d1, d2. split; [exact H1 | exact H2].
Defined.

End Sha1.
